(** * Sudoku: the puzzle generator and the gameplay state machine of script.js

    A shallow embedding of [src/script.js].  Arrays are lists, the 9x9
    boards are lists of rows, [state] is a record that every handler takes
    and returns, and the two uses of [Math.random] are read from an explicit
    random source.  [Session] holds the handlers up to their call of
    [renderBoard]; [Page] follows them through the redraw, whose
    [updateNumpad] ends with [checkCompletion], and adds the two items the
    script keeps in [localStorage].  The DOM, [alert] and the interval
    handle are left out. *)

From Stdlib Require Import QArith_base Ascii.
From stdpp Require Import base decidable option numbers list strings sorting
  pretty.

Local Open Scope nat_scope.

(** ** Boards

    The boards and the notes are 9x9 arrays of arrays. *)

(** [m[r][c]].  Every read of the program is inside the 9x9 board (loop
    bounds, box origins and [selectedCell] all stay within 0..8); the model
    reads a cell outside of it as [d]. *)
Definition get2 {A} (d : A) (m : list (list A)) (r c : nat) : A :=
  default d (m !! r ≫= (.!! c)).

(** [m[r][c] = v] *)
Definition set2 {A} (m : list (list A)) (r c : nat) (v : A) : list (list A) :=
  alter (<[c := v]>) r m.

Definition shape9 {A} (m : list (list A)) : Prop :=
  length m = 9 ∧ Forall (λ row, length row = 9) m.

(** Grids of digits, 0 for an empty cell. *)
Abbreviation Grid := (list (list Z)).
Abbreviation cell := (get2 0%Z).
Abbreviation set_cell := (@set2 Z).

(** [Array.from({ length: 9 }, () => Array(9).fill(0))] *)
Definition empty_grid : Grid := replicate 9 (replicate 9 0%Z).

(** The cells in the order of the nested [for] loops over rows and columns. *)
Definition coords : list (nat * nat) :=
  r ← seq 0 9; c ← seq 0 9; [(r, c)].

(** The offsets of the nested [for (i < 3) for (j < 3)] loops. *)
Definition box_offsets : list (nat * nat) :=
  i ← seq 0 3; j ← seq 0 3; [(i, j)].

(** The cells visited by a loop over the row of [(r, c)], a loop over its
    column and the nested loops over its 3x3 box, which starts at
    [(floor(r / 3) * 3, floor(c / 3) * 3)]. *)
Definition unit_cells (r c : nat) : list (nat * nat) :=
  ((λ x, (r, x)) <$> seq 0 9) ++ ((λ x, (x, c)) <$> seq 0 9)
  ++ ((λ '(i, j), (r / 3 * 3 + i, c / 3 * 3 + j)) <$> box_offsets).

(** [(r', c')] lies in the row, the column or the box of [(r, c)]. *)
Definition same_unit (r c r' c' : nat) : Prop :=
  r' = r ∨ c' = c ∨ (r' / 3 = r / 3 ∧ c' / 3 = c / 3).

Definition nonzero_row (row : list Z) : nat :=
  length (filter (λ v, v ≠ 0%Z) row).

(** Number of nonzero cells of a board. *)
Definition count_nonzero (g : Grid) : nat :=
  sum_list (nonzero_row <$> g).

Global Arguments get2 : simpl never.
Global Arguments set2 : simpl never.
Global Arguments nonzero_row : simpl never.
Global Arguments count_nonzero : simpl never.
Global Arguments unit_cells : simpl never.
Global Arguments coords : simpl never.

(** ** Random source

    [draws] are the successive values of [Math.floor(Math.random() * 9)]
    (a draw is reduced modulo 9, so every natural number is a legal draw);
    a run that needs more draws than the list holds has no result.
    [sorts k] is the array produced by the k-th evaluation of
    [[1..9].sort(() => Math.random() - 0.5)]. *)
Record Random := mkRandom {
  draws : list nat;
  sorts : nat → list Z
}.

Module Generator.

(** [isValid(grid, row, col, num)] *)
Definition isValid (g : Grid) (row col : nat) (num : Z) : bool :=
  forallb (λ x, negb (cell g row x =? num)%Z && negb (cell g x col =? num)%Z)
          (seq 0 9)
  && (let startRow := row / 3 * 3 in
      let startCol := col / 3 * 3 in
      forallb (λ i, forallb (λ j,
                 negb (cell g (startRow + i) (startCol + j) =? num)%Z)
               (seq 0 3))
              (seq 0 3)).

(** [isSafeBox(rowStart, colStart, num)] on [this.grid] *)
Definition isSafeBox (g : Grid) (rowStart colStart : nat) (num : Z) : bool :=
  forallb (λ i, forallb (λ j,
             negb (cell g (rowStart + i) (colStart + j) =? num)%Z)
           (seq 0 3))
          (seq 0 3).

(** The [do { num = floor(random * 9) + 1 } while (!isSafeBox(...))] loop. *)
Fixpoint draw_digit (g : Grid) (row col : nat) (ds : list nat)
  : option (Z * list nat) :=
  match ds with
  | [] => None
  | d :: rest =>
      let num := (Z.of_nat (d mod 9) + 1)%Z in
      if isSafeBox g row col num then Some (num, rest)
      else draw_digit g row col rest
  end.

Fixpoint fillBox_from (offs : list (nat * nat)) (g : Grid) (row col : nat)
    (ds : list nat) : option (Grid * list nat) :=
  match offs with
  | [] => Some (g, ds)
  | (i, j) :: offs' =>
      match draw_digit g row col ds with
      | None => None
      | Some (num, rest) =>
          fillBox_from offs' (set_cell g (row + i) (col + j) num) row col rest
      end
  end.

(** [fillBox(row, col)] *)
Definition fillBox (g : Grid) (row col : nat) (ds : list nat)
  : option (Grid * list nat) :=
  fillBox_from box_offsets g row col ds.

(** The first empty cell in row-major order, as the two nested loops of
    [fillGrid] find it. *)
Definition first_empty (g : Grid) : option (nat * nat) :=
  List.find (λ '(r, c), (cell g r c =? 0)%Z) coords.

(** The [for (let num of nums)] loop of [fillGrid] at the empty cell
    [(row, col)]; [rec] is the recursive call. *)
Definition try_nums (rec : Grid → nat → option (bool * Grid * nat))
    (row col : nat) : list Z → Grid → nat → option (bool * Grid * nat) :=
  fix try (nums : list Z) (g : Grid) (k : nat) :=
    match nums with
    | [] => Some (false, g, k)
    | num :: nums' =>
        if isValid g row col num then
          match rec (set_cell g row col num) k with
          | None => None
          | Some (true, g', k') => Some (true, g', k')
          | Some (false, g', k') => try nums' (set_cell g' row col 0%Z) k'
          end
        else try nums' g k
    end.

(** [fillGrid(grid)]: the result carries the returned boolean, the board as
    the call leaves it and the number of shuffles used so far.  The recursion
    depth is bounded by [fuel]; [None] means the bound was too small. *)
Fixpoint fillGrid (fuel : nat) (srt : nat → list Z) (g : Grid) (k : nat)
  : option (bool * Grid * nat) :=
  match fuel with
  | 0 => None
  | S fuel' =>
      match first_empty g with
      | None => Some (true, g, k)
      | Some (row, col) =>
          try_nums (fillGrid fuel' srt) row col (srt k) g (S k)
      end
  end.

(** A value read from the [DIFFICULTY] object: one of its own entries, or a
    member inherited from [Object.prototype] (a function or object, which is
    truthy and has no [removed] property). *)
Inductive JSProp :=
  | Entry (removed : nat) (multiplier : Q)
  | Inherited.

(** The property names every object literal inherits from [Object.prototype]. *)
Definition object_prototype_keys : list string :=
  ["constructor"; "__defineGetter__"; "__defineSetter__"; "hasOwnProperty";
   "__lookupGetter__"; "__lookupSetter__"; "isPrototypeOf";
   "propertyIsEnumerable"; "toString"; "valueOf"; "__proto__";
   "toLocaleString"]%string.

(** [DIFFICULTY[difficulty]]; [None] is [undefined]. *)
Definition DIFFICULTY (difficulty : string) : option JSProp :=
  if String.eqb difficulty "easy" then Some (Entry 30 1%Q)
  else if String.eqb difficulty "medium" then Some (Entry 40 (3 # 2)%Q)
  else if String.eqb difficulty "hard" then Some (Entry 50 2%Q)
  else if String.eqb difficulty "expert" then Some (Entry 55 3%Q)
  else if bool_decide (difficulty ∈ object_prototype_keys) then Some Inherited
  else None.

(** [DIFFICULTY[difficulty] ? DIFFICULTY[difficulty].removed : 30];
    [None] is [undefined]. *)
Definition attempts (difficulty : string) : option nat :=
  match DIFFICULTY difficulty with
  | Some (Entry removed _) => Some removed
  | Some Inherited => None
  | None => Some 30
  end.

(** The [while (count > 0)] loop that blanks cells; each round takes two
    draws, the row and the column. *)
Fixpoint remove_cells (count : nat) (g : Grid) (ds : list nat) {struct ds}
  : option Grid :=
  match count with
  | 0 => Some g
  | S count' =>
      match ds with
      | dr :: dc :: rest =>
          let r := dr mod 9 in
          let c := dc mod 9 in
          if negb (cell g r c =? 0)%Z
          then remove_cells count' (set_cell g r c 0%Z) rest
          else remove_cells count g rest
      | _ => None
      end
  end.

(** The three calls [fillBox(0,0)], [fillBox(3,3)], [fillBox(6,6)]. *)
Definition fill_diagonal (g : Grid) (ds : list nat) : option (Grid * list nat) :=
  '(g0, ds0) ← fillBox g 0 0 ds;
  '(g3, ds3) ← fillBox g0 3 3 ds0;
  fillBox g3 6 6 ds3.

(** Recursion bound handed to [fillGrid]: one level per cell and one more
    for the call that finds the board full. *)
Definition fill_fuel : nat := 82.

Record Puzzle := mkPuzzle { p_initial : Grid; p_solution : Grid }.

(** [generate(difficulty)].  The result of [fillGrid] is not looked at; a
    [count] of [undefined] fails the loop test at once. *)
Definition generate (difficulty : string) (rnd : Random) : option Puzzle :=
  '(g1, ds1) ← fill_diagonal empty_grid (draws rnd);
  '(_, g2, _) ← fillGrid fill_fuel (sorts rnd) g1 0;
  let solution := g2 in
  g3 ← match attempts difficulty with
       | Some count => remove_cells count g2 ds1
       | None => Some g2
       end;
  Some (mkPuzzle g3 solution).

End Generator.

(** The four supported tiers, with their names in [DIFFICULTY] and the
    removal counts of the difficulty table. *)
Inductive Tier := Easy | Medium | Hard | Expert.

Definition tier_name (t : Tier) : string :=
  match t with
  | Easy => "easy" | Medium => "medium" | Hard => "hard" | Expert => "expert"
  end.

Definition tier_removed (t : Tier) : nat :=
  match t with
  | Easy => 30 | Medium => 40 | Hard => 50 | Expert => 55
  end.

Module Samples.
Import Generator.

(** A random source: the diagonal boxes receive 1..9 in reading order, every
    shuffle leaves 1..9 in place, and the removal loop is offered the cells
    in row-major order. *)
Definition sample_draws : list nat :=
  (seq 0 9 ++ seq 0 9 ++ seq 0 9) ++ (coords ≫= λ '(r, c), [r; c]).

Definition sample_random : Random :=
  mkRandom sample_draws (λ _, [1; 2; 3; 4; 5; 6; 7; 8; 9]%Z).

End Samples.

(** * The session: [state] and its handlers *)

Module Session.
Import Generator.

Definition HINT_COST : Z := 50.
Definition MAX_MISTAKES : nat := 3.

Inductive ActionType := Input | Note.

(** A history entry [{type, r, c, val, prevVal}]. *)
Record Action := mkAction {
  a_type : ActionType;
  a_r : nat;
  a_c : nat;
  a_val : Z;
  a_prevVal : Z
}.

Abbreviation Notes := (list (list (list Z))).

(** The global [state].  [timerInterval] only holds the handle of the
    running interval and is not modelled. *)
Record State := mkState {
  grid : Grid;
  solution : Grid;
  initial : Grid;
  notes : Notes;
  selectedCell : option (nat * nat);
  score : Z;
  timer : nat;
  mistakes : nat;
  level : string;
  isNoteMode : bool;
  history : list Action;
  isPaused : bool;
  isGameOver : bool
}.

(** Assignments to single fields. *)
Definition with_grid (g : Grid) (s : State) : State :=
  mkState g (solution s) (initial s) (notes s) (selectedCell s) (score s)
    (timer s) (mistakes s) (level s) (isNoteMode s) (history s) (isPaused s)
    (isGameOver s).
Definition with_initial (g : Grid) (s : State) : State :=
  mkState (grid s) (solution s) g (notes s) (selectedCell s) (score s)
    (timer s) (mistakes s) (level s) (isNoteMode s) (history s) (isPaused s)
    (isGameOver s).
Definition with_notes (ns : Notes) (s : State) : State :=
  mkState (grid s) (solution s) (initial s) ns (selectedCell s) (score s)
    (timer s) (mistakes s) (level s) (isNoteMode s) (history s) (isPaused s)
    (isGameOver s).
Definition with_selectedCell (sel : option (nat * nat)) (s : State) : State :=
  mkState (grid s) (solution s) (initial s) (notes s) sel (score s)
    (timer s) (mistakes s) (level s) (isNoteMode s) (history s) (isPaused s)
    (isGameOver s).
Definition with_score (n : Z) (s : State) : State :=
  mkState (grid s) (solution s) (initial s) (notes s) (selectedCell s) n
    (timer s) (mistakes s) (level s) (isNoteMode s) (history s) (isPaused s)
    (isGameOver s).
Definition with_timer (n : nat) (s : State) : State :=
  mkState (grid s) (solution s) (initial s) (notes s) (selectedCell s) (score s)
    n (mistakes s) (level s) (isNoteMode s) (history s) (isPaused s)
    (isGameOver s).
Definition with_mistakes (n : nat) (s : State) : State :=
  mkState (grid s) (solution s) (initial s) (notes s) (selectedCell s) (score s)
    (timer s) n (level s) (isNoteMode s) (history s) (isPaused s)
    (isGameOver s).
Definition with_isNoteMode (b : bool) (s : State) : State :=
  mkState (grid s) (solution s) (initial s) (notes s) (selectedCell s) (score s)
    (timer s) (mistakes s) (level s) b (history s) (isPaused s)
    (isGameOver s).
Definition with_history (h : list Action) (s : State) : State :=
  mkState (grid s) (solution s) (initial s) (notes s) (selectedCell s) (score s)
    (timer s) (mistakes s) (level s) (isNoteMode s) h (isPaused s)
    (isGameOver s).
Definition with_isPaused (b : bool) (s : State) : State :=
  mkState (grid s) (solution s) (initial s) (notes s) (selectedCell s) (score s)
    (timer s) (mistakes s) (level s) (isNoteMode s) (history s) b
    (isGameOver s).
Definition with_isGameOver (b : bool) (s : State) : State :=
  mkState (grid s) (solution s) (initial s) (notes s) (selectedCell s) (score s)
    (timer s) (mistakes s) (level s) (isNoteMode s) (history s) (isPaused s)
    b.

(** [state.notes[r][c]] and the assignment to it. *)
Abbreviation note_at := (get2 (@nil Z)).
Abbreviation set_note := (@set2 (list Z)).

(** [Array.from({ length: 9 }, () => Array.from({ length: 9 }, () => []))] *)
Definition empty_notes : Notes := replicate 9 (replicate 9 []).

(** [idx = l.indexOf(num); if (idx > -1) l.splice(idx, 1)]: the first
    occurrence goes, the rest keeps its order. *)
Fixpoint remove_first (num : Z) (l : list Z) : list Z :=
  match l with
  | [] => []
  | x :: l' => if decide (x = num) then l' else x :: remove_first num l'
  end.

(** The state the script starts with. *)
Definition state0 : State :=
  mkState [] [] [] [] None 0 0 0 "easy" false [] false false.

(** [gameOver(isWin)]: the flag is the only field it writes; stopping the
    timer, dropping the saved game, recording the high score and showing the
    dialog are outside [state]. *)
Definition gameOver (isWin : bool) (s : State) : State :=
  with_isGameOver true s.

(** [handleMistake(r, c)] *)
Definition handleMistake (r c : nat) (s : State) : State :=
  let s := with_mistakes (mistakes s + 1) s in
  if MAX_MISTAKES <=? mistakes s then gameOver false s
  else with_score (Z.max 0 (score s - 50)) s.

(** [addToHistory(action)]: [shift] drops the oldest entry, [push] appends. *)
Definition addToHistory (action : Action) (s : State) : State :=
  let h := if 20 <? length (history s) then tail (history s) else history s in
  with_history (h ++ [action]) s.

(** [checkCompletion()] *)
Definition checkCompletion (s : State) : State :=
  let isFull := forallb (λ '(r, c), negb (cell (grid s) r c =? 0)%Z) coords in
  let isCorrect :=
    forallb (λ '(r, c), (cell (grid s) r c =? cell (solution s) r c)%Z) coords in
  let s := if isFull && isCorrect then gameOver true s else s in
  with_score (score s + 10) s.

(** [toggleNoteValue(r, c, num)]; its first line replaces a missing note
    array, and every cell has one. *)
Definition toggleNoteValue (r c : nat) (num : Z) (s : State) : State :=
  let l := note_at (notes s) r c in
  let l' := if bool_decide (num ∈ l) then remove_first num l else l ++ [num] in
  with_notes (set_note (notes s) r c l') s.

(** [removeNote(r, c, num)] on the notes; the test that the cell has a note
    array always succeeds. *)
Definition removeNote (num : Z) (ns : Notes) (p : nat * nat) : Notes :=
  set_note ns p.1 p.2 (remove_first num (note_at ns p.1 p.2)).

(** [clearNotesForMove(r, c, num)] *)
Definition clearNotesForMove (r c : nat) (num : Z) (s : State) : State :=
  let ns := set_note (notes s) r c [] in
  with_notes (foldl (removeNote num) ns (unit_cells r c)) s.

(** [inputNumber(num)] *)
Definition inputNumber (num : Z) (s : State) : State :=
  if isGameOver s then s else
  match selectedCell s with
  | None => s
  | Some (r, c) =>
      if negb (cell (initial s) r c =? 0)%Z then s
      else if isNoteMode s then toggleNoteValue r c num s
      else
        let prevVal := cell (grid s) r c in
        if (prevVal =? num)%Z then s
        else
          let s := addToHistory (mkAction Input r c num prevVal) s in
          let s := with_grid (set_cell (grid s) r c num) s in
          if negb (num =? 0)%Z then
            if negb (num =? cell (solution s) r c)%Z then handleMistake r c s
            else clearNotesForMove r c num (checkCompletion s)
          else s
  end.

(** [selectCell(r, c)] *)
Definition selectCell (r c : nat) (s : State) : State :=
  if isGameOver s then s else with_selectedCell (Some (r, c)) s.

(** [undo()]: [pop] takes the newest entry. *)
Definition undo (s : State) : State :=
  if isGameOver s then s else
  match last (history s) with
  | None => s
  | Some action =>
      let s := with_history (removelast (history s)) s in
      let s :=
        match a_type action with
        | Input => with_grid (set_cell (grid s) (a_r action) (a_c action)
                                (a_prevVal action)) s
        | Note => s
        end in
      selectCell (a_r action) (a_c action) s
  end.

(** [erase()] *)
Definition erase (s : State) : State :=
  if isGameOver s then s else
  match selectedCell s with
  | None => s
  | Some (r, c) =>
      if negb (cell (initial s) r c =? 0)%Z then s else inputNumber 0 s
  end.

(** [toggleNotes()] *)
Definition toggleNotes (s : State) : State :=
  with_isNoteMode (negb (isNoteMode s)) s.

(** [useHint()] *)
Definition useHint (s : State) : State :=
  if isGameOver s then s
  else if (score s <? HINT_COST)%Z then s
  else match selectedCell s with
  | None => s
  | Some (r, c) =>
      if negb (cell (grid s) r c =? 0)%Z then s
      else
        let s := with_score (score s - HINT_COST) s in
        let s := with_grid (set_cell (grid s) r c (cell (solution s) r c)) s in
        let s := with_initial (set_cell (initial s) r c (cell (solution s) r c)) s in
        checkCompletion s
  end.

(** [pauseGame()] and [resumeFromPause()] *)
Definition pauseGame (s : State) : State :=
  if isGameOver s then s else with_isPaused true s.
Definition resumeFromPause (s : State) : State :=
  with_isPaused false s.

(** One firing of the interval set up by [startTimer]. *)
Definition tick (s : State) : State :=
  if negb (isPaused s) && negb (isGameOver s)
  then with_timer (timer s + 1) s else s.

(** [startGame(level)]: [selectedCell] and [isNoteMode] are not reset. *)
Definition startGame (lvl : string) (rnd : Random) (s : State) : option State :=
  data ← generate lvl rnd;
  Some (mkState (p_initial data) (p_solution data) (p_initial data)
          empty_notes (selectedCell s) 0 0 0 lvl (isNoteMode s) [] false false).

(** What the player and the clock can do to a running session. *)
Inductive Op :=
  | SelectCell (r c : nat)
  | InputNumber (num : Z)
  | Erase
  | Undo
  | ToggleNotes
  | UseHint
  | PauseGame
  | ResumeFromPause
  | Tick.

Definition step (s : State) (op : Op) : State :=
  match op with
  | SelectCell r c => selectCell r c s
  | InputNumber num => inputNumber num s
  | Erase => erase s
  | Undo => undo s
  | ToggleNotes => toggleNotes s
  | UseHint => useHint s
  | PauseGame => pauseGame s
  | ResumeFromPause => resumeFromPause s
  | Tick => tick s
  end.

Definition run (ops : list Op) (s : State) : State := foldl step s ops.

(** The board has 81 cells to click and the number pad the digits 1..9. *)
Definition legal (op : Op) : Prop :=
  match op with
  | SelectCell r c => r < 9 ∧ c < 9
  | InputNumber num => (1 ≤ num ≤ 9)%Z
  | _ => True
  end.

(** The states of the session that [startGame] opened in state [s0]. *)
Inductive reachable (s0 : State) : State → Prop :=
  | reach_start : reachable s0 s0
  | reach_step s op : reachable s0 s → legal op → reachable s0 (step s op).

Global Arguments checkCompletion : simpl never.
Global Arguments handleMistake : simpl never.
Global Arguments clearNotesForMove : simpl never.

End Session.

(** * Notions used to state the properties *)

Module Specs.
Import Generator Session.

(** 1 for a filled cell, 0 for an empty one. *)
Definition is_nz (v : Z) : nat := if decide (v ≠ 0%Z) then 1 else 0.

(** What a call of [fillGrid] leaves behind: a board without empty cell when
    it returns [true], the board it was given when it returns [false]. *)
Definition fill_post (g : Grid) (res : bool * Grid * nat) : Prop :=
  let '(b, g', _) := res in
  (shape9 g → shape9 g') ∧ (if b then first_empty g' = None else g' = g).

(** The digit stands in another cell of the row, the column or the box. *)
Definition appears_elsewhere (g : Grid) (row col : nat) (num : Z) : Prop :=
  ∃ r c, r < 9 ∧ c < 9 ∧ same_unit row col r c ∧ (r, c) ≠ (row, col)
         ∧ cell g r c = num.

(** A completed board: digits 1..9 everywhere, no digit twice in a row, a
    column or a box. *)
Definition solved (sol : Grid) : Prop :=
  shape9 sol
  ∧ (∀ r c, r < 9 → c < 9 → (1 ≤ cell sol r c ≤ 9)%Z)
  ∧ ∀ r c r' c', r < 9 → c < 9 → r' < 9 → c' < 9 →
      same_unit r c r' c' → (r', c') ≠ (r, c) → cell sol r' c' ≠ cell sol r c.

Definition solvedb (sol : Grid) : bool :=
  forallb (λ '(r, c),
    (1 <=? cell sol r c)%Z && (cell sol r c <=? 9)%Z
    && forallb (λ '(r', c'),
         bool_decide ((r', c') = (r, c))
         || negb (cell sol r' c' =? cell sol r c)%Z) (unit_cells r c))
    coords.

(** The filled cells of [g] agree with [sol]. *)
Definition extends (g sol : Grid) : Prop :=
  ∀ r c, r < 9 → c < 9 → cell g r c ≠ 0%Z → cell g r c = cell sol r c.

Definition extendsb (g sol : Grid) : bool :=
  forallb (λ '(r, c), (cell g r c =? 0)%Z || (cell g r c =? cell sol r c)%Z)
    coords.

(** The board after the diagonal boxes were filled from [sample_draws]. *)
Definition sample_diagonal : Grid :=
  (default (empty_grid, []) (fill_diagonal empty_grid Samples.sample_draws)).1.

(** The state of [inputNumber] after it has logged the move and written the
    digit, before it looks at the solution. *)
Definition written (r c : nat) (num : Z) (s : State) : State :=
  let s1 := addToHistory (mkAction Input r c num (cell (grid s) r c)) s in
  with_grid (set_cell (grid s1) r c num) s1.

(** The ways through [inputNumber(num)]. *)
Inductive input_outcome (num : Z) (s : State) : State → Prop :=
  | input_ignored :
      isGameOver s = true ∨ selectedCell s = None
      ∨ (∃ r c, selectedCell s = Some (r, c)
                ∧ (cell (initial s) r c ≠ 0%Z
                   ∨ (isNoteMode s = false ∧ cell (grid s) r c = num))) →
      input_outcome num s s
  | input_note r c :
      isGameOver s = false → selectedCell s = Some (r, c) →
      cell (initial s) r c = 0%Z → isNoteMode s = true →
      input_outcome num s (toggleNoteValue r c num s)
  | input_erase r c :
      isGameOver s = false → selectedCell s = Some (r, c) →
      cell (initial s) r c = 0%Z → isNoteMode s = false →
      cell (grid s) r c ≠ num → num = 0%Z →
      input_outcome num s (written r c num s)
  | input_mistake r c :
      isGameOver s = false → selectedCell s = Some (r, c) →
      cell (initial s) r c = 0%Z → isNoteMode s = false →
      cell (grid s) r c ≠ num → num ≠ 0%Z → num ≠ cell (solution s) r c →
      input_outcome num s (handleMistake r c (written r c num s))
  | input_correct r c :
      isGameOver s = false → selectedCell s = Some (r, c) →
      cell (initial s) r c = 0%Z → isNoteMode s = false →
      cell (grid s) r c ≠ num → num ≠ 0%Z → num = cell (solution s) r c →
      input_outcome num s
        (clearNotesForMove r c num (checkCompletion (written r c num s))).

Definition in_range (sel : option (nat * nat)) : Prop :=
  match sel with
  | Some (r, c) => r < 9 ∧ c < 9
  | None => True
  end.

(** [s0] is the state right after [startGame]; the state before it is the
    one the script starts with or an earlier session, whose selection is a
    cell of the board. *)
Definition opened (s0 : State) : Prop :=
  ∃ lvl rnd sprev,
    in_range (selectedCell sprev) ∧ startGame lvl rnd sprev = Some s0.

Definition wf (s : State) : Prop :=
  shape9 (notes s) ∧ (∀ r c, NoDup (note_at (notes s) r c))
  ∧ in_range (selectedCell s)
  ∧ Forall (λ a, a_r a < 9 ∧ a_c a < 9) (history s).

(** The cells dealt filled stay fixed and without notes. *)
Definition dealt_inv (s0 s : State) : Prop :=
  solution s = solution s0
  ∧ ∀ r c, cell (initial s0) r c ≠ 0%Z →
           cell (initial s) r c ≠ 0%Z ∧ note_at (notes s) r c = [].

(** A session to compute with: the easy puzzle dealt from
    [sample_random]; its first 30 cells in reading order are empty and the
    solution starts with 1 2 3 5 4 7 6 9 8. *)
Definition sample_start : State :=
  default state0 (startGame "easy" Samples.sample_random state0).

(** The moves that fill the 30 empty cells of the sample puzzle with the
    digits of the solution. *)
Definition winning_ops : list Op :=
  take 30 coords ≫= λ '(r, c),
    [SelectCell r c; InputNumber (cell (solution sample_start) r c)].

End Specs.

(** * Notions about boards *)

Module BoardNotions.

(** No filled cell has its digit a second time in its row, column or box. *)
Definition consistent (g : Grid) : Prop :=
  ∀ r c r' c', r < 9 → c < 9 → r' < 9 → c' < 9 →
    same_unit r c r' c' → (r', c') ≠ (r, c) → cell g r c ≠ 0%Z →
    cell g r' c' ≠ cell g r c.

(** Every cell holds a digit or is empty. *)
Definition digits_ok (g : Grid) : Prop :=
  ∀ r c, r < 9 → c < 9 → (0 ≤ cell g r c ≤ 9)%Z.

(** Only the three diagonal boxes hold digits. *)
Definition diag_only (g : Grid) : Prop :=
  ∀ r c, r < 9 → c < 9 → cell g r c ≠ 0%Z → r / 3 = c / 3.

(** The filled cells of [g] are the same in [g']. *)
Definition keeps (g g' : Grid) : Prop :=
  ∀ r c, cell g r c ≠ 0%Z → cell g' r c = cell g r c.

(** A 9x9 board of digits without repetition. *)
Definition board_ok (g : Grid) : Prop :=
  shape9 g ∧ consistent g ∧ digits_ok g.

(** The cells of the box at [(row, col)] listed in [done] hold digits 1..9,
    no two of them the same. *)
Definition box_distinct (g : Grid) (row col : nat) (done : list (nat * nat))
  : Prop :=
  ∀ p, p ∈ done →
    (1 ≤ cell g (row + p.1) (col + p.2) ≤ 9)%Z
    ∧ ∀ q, q ∈ done → q ≠ p →
        cell g (row + q.1) (col + q.2) ≠ cell g (row + p.1) (col + p.2).

End BoardNotions.

(** * The handlers followed through the redraw

    [renderBoard()] ends with [updateNumpad(counts)], and [updateNumpad]
    ends with [updateStats(); checkCompletion()]: every redraw runs the
    completion check and adds its 10 points.  [gameOver(true)] records the
    high score, and [saveGame], [gameOver], [startGame] and [resumeGame]
    write or read the saved game.  [Session] follows each handler up to its
    call of [renderBoard]; this module follows the calls to the end.  The
    page is the session state together with the two [localStorage] items the
    script uses, which nothing else writes. *)

Module Page.
Import Generator Session.

(** An entry [{score, date, level}] of the high-score list. *)
Record HighScore := mkHighScore {
  hs_score : Z;
  hs_date : string;
  hs_level : string
}.

(** [state], and what [localStorage] holds under ['sudoku_save'] and
    ['sudoku_highscores'] ([None] for [null]).  [JSON.stringify] and
    [JSON.parse] copy the numbers, strings, booleans and arrays of the state
    and of the list as they are. *)
Record Page := mkPage {
  state : State;
  sudoku_save : option State;
  sudoku_highscores : option (list HighScore)
}.

Definition with_state (f : State → State) (p : Page) : Page :=
  mkPage (f (state p)) (sudoku_save p) (sudoku_highscores p).


(** [scores.sort((a, b) => b.score - a.score)]: the sort is stable, an
    entry comes to stand behind the entries of the same score that were
    before it in the array. *)
Fixpoint insert_score (e : HighScore) (l : list HighScore) : list HighScore :=
  match l with
  | [] => [e]
  | x :: l' =>
      if (hs_score x <? hs_score e)%Z then e :: x :: l'
      else x :: insert_score e l'
  end.

Definition sort_scores (l : list HighScore) : list HighScore :=
  foldl (λ acc e, insert_score e acc) [] l.

(** [saveHighScore(score)]; [today] is [new Date().toLocaleDateString()]. *)
Definition saveHighScore (today : string) (sc : Z) (p : Page) : Page :=
  let scores := default [] (sudoku_highscores p) in
  let scores := scores ++ [mkHighScore sc today (level (state p))] in
  let scores := sort_scores scores in
  mkPage (state p) (sudoku_save p) (Some (take 5 scores)).

(** [gameOver(isWin)]: sets the flag, removes the saved game and records
    the score of a win. *)
Definition gameOver (today : string) (isWin : bool) (p : Page) : Page :=
  let p := mkPage (with_isGameOver true (state p)) None (sudoku_highscores p) in
  if isWin then saveHighScore today (score (state p)) p else p.

(** The two tests of [checkCompletion]: no cell is 0, and every cell is the
    cell of the solution. *)
Definition completed (s : State) : bool :=
  forallb (λ '(r, c), negb (cell (grid s) r c =? 0)%Z) coords
  && forallb (λ '(r, c), (cell (grid s) r c =? cell (solution s) r c)%Z) coords.

(** [checkCompletion()] *)
Definition checkCompletion (today : string) (p : Page) : Page :=
  let p := if completed (state p) then gameOver today true p else p in
  with_state (λ s, with_score (score s + 10) s) p.

(** [updateNumpad(counts)]: marks the digits placed nine times, then
    [updateStats(); checkCompletion()]. *)
Definition updateNumpad (today : string) (p : Page) : Page :=
  checkCompletion today p.

(** [renderBoard()]: rebuilds the cells, then
    [highlightBoard(); updateNumpad(counts)]. *)
Definition renderBoard (today : string) (p : Page) : Page :=
  updateNumpad today p.

(** [saveGame()] *)
Definition saveGame (p : Page) : Page :=
  if isGameOver (state p) then p
  else mkPage (state p) (Some (state p)) (sudoku_highscores p).

(** [handleMistake(r, c)] *)
Definition handleMistake (today : string) (r c : nat) (p : Page) : Page :=
  let p := with_state (λ s, with_mistakes (mistakes s + 1) s) p in
  if MAX_MISTAKES <=? mistakes (state p) then gameOver today false p
  else with_state (λ s, with_score (Z.max 0 (score s - 50)) s) p.

(** [toggleNoteValue(r, c, num)] *)
Definition toggleNoteValue (today : string) (r c : nat) (num : Z) (p : Page)
  : Page :=
  renderBoard today (with_state (Session.toggleNoteValue r c num) p).

(** [inputNumber(num)] *)
Definition inputNumber (today : string) (num : Z) (p : Page) : Page :=
  if isGameOver (state p) then p else
  match selectedCell (state p) with
  | None => p
  | Some (r, c) =>
      if negb (cell (initial (state p)) r c =? 0)%Z then p
      else if isNoteMode (state p) then toggleNoteValue today r c num p
      else
        let prevVal := cell (grid (state p)) r c in
        if (prevVal =? num)%Z then p
        else
          let p := with_state (addToHistory (mkAction Input r c num prevVal)) p in
          let p := with_state (λ s, with_grid (set_cell (grid s) r c num) s) p in
          let p :=
            if negb (num =? 0)%Z then
              if negb (num =? cell (solution (state p)) r c)%Z
              then handleMistake today r c p
              else with_state (clearNotesForMove r c num)
                     (checkCompletion today p)
            else p in
          saveGame (renderBoard today p)
  end.

(** [selectCell(r, c)] *)
Definition selectCell (r c : nat) (p : Page) : Page :=
  with_state (Session.selectCell r c) p.

(** [undo()] *)
Definition undo (today : string) (p : Page) : Page :=
  if isGameOver (state p) then p else
  match last (history (state p)) with
  | None => p
  | Some action =>
      let p := with_state (λ s, with_history (removelast (history s)) s) p in
      let p :=
        match a_type action with
        | Input =>
            with_state (λ s, with_grid (set_cell (grid s) (a_r action)
                                          (a_c action) (a_prevVal action)) s) p
        | Note => p
        end in
      selectCell (a_r action) (a_c action) (renderBoard today p)
  end.

(** [erase()] *)
Definition erase (today : string) (p : Page) : Page :=
  if isGameOver (state p) then p else
  match selectedCell (state p) with
  | None => p
  | Some (r, c) =>
      if negb (cell (initial (state p)) r c =? 0)%Z then p
      else inputNumber today 0 p
  end.

(** [toggleNotes()] *)
Definition toggleNotes (p : Page) : Page := with_state Session.toggleNotes p.

(** [useHint()] *)
Definition useHint (today : string) (p : Page) : Page :=
  if isGameOver (state p) then p
  else if (score (state p) <? HINT_COST)%Z then p
  else match selectedCell (state p) with
  | None => p
  | Some (r, c) =>
      if negb (cell (grid (state p)) r c =? 0)%Z then p
      else
        let p := with_state (λ s, with_score (score s - HINT_COST) s) p in
        let p := with_state (λ s,
          with_grid (set_cell (grid s) r c (cell (solution s) r c)) s) p in
        let p := with_state (λ s,
          with_initial (set_cell (initial s) r c (cell (solution s) r c)) s) p in
        checkCompletion today (renderBoard today p)
  end.

(** [pauseGame()] and [resumeFromPause()] *)
Definition pauseGame (p : Page) : Page := with_state Session.pauseGame p.
Definition resumeFromPause (p : Page) : Page :=
  with_state Session.resumeFromPause p.

(** One firing of the interval set up by [startTimer]. *)
Definition tick (p : Page) : Page :=
  if negb (isPaused (state p)) && negb (isGameOver (state p)) then
    let p := with_state (λ s, with_timer (timer s + 1) s) p in
    if timer (state p) mod 10 =? 0 then saveGame p else p
  else p.

(** [startGame(level)] *)
Definition startGame (today : string) (lvl : string) (rnd : Random) (p : Page)
  : option Page :=
  s ← Session.startGame lvl rnd (state p);
  Some (renderBoard today (mkPage s None (sudoku_highscores p))).









Global Arguments completed : simpl never.

End Page.

(** * The clock display *)

Module Display.

(** [s.padStart(n, '0')] *)
Fixpoint zeros (n : nat) : string :=
  match n with
  | 0 => ""
  | S n => String "0"%char (zeros n)
  end.

Definition padStart (n : nat) (s : string) : string :=
  zeros (n - String.length s) +:+ s.

(** [formatTime(seconds)]; [pretty] is [toString()] on a natural number. *)
Definition formatTime (seconds : nat) : string :=
  let m := padStart 2 (pretty (seconds / 60)) in
  let s := padStart 2 (pretty (seconds mod 60)) in
  m +:+ ":" +:+ s.

(** The character of a decimal digit. *)
Definition digit (d : nat) : ascii := ascii_of_nat (48 + d).

End Display.

(** * Notions about the page *)

Module PageNotions.
Import Session Page.

(** The order [saveHighScore] sorts by: the higher score first. *)
Definition by_score (a b : HighScore) : Prop := (hs_score b ≤ hs_score a)%Z.

















End PageNotions.

(** * Properties *)

(** ** Reading and writing cells *)

Section ArrayFacts.
Context {A : Type}.
Implicit Types (m : list (list A)) (r c : nat) (v d : A).

Lemma shape9_row m r :
  shape9 m → r < 9 → ∃ row, m !! r = Some row ∧ length row = 9.
Proof.
  intros [Hl Hrows] Hr. destruct (lookup_lt_is_Some_2 m r) as [row Hrow]; [lia|].
  exists row. split; [done|]. eapply Forall_lookup_1 in Hrows; eauto.
Qed.

Lemma shape9_lookup d m r c :
  shape9 m → r < 9 → c < 9 →
  ∃ row, m !! r = Some row ∧ length row = 9 ∧ row !! c = Some (get2 d m r c).
Proof.
  intros Hs Hr Hc. destruct (shape9_row m r Hs Hr) as (row & Hrow & Hlen).
  exists row. split_and!; [done..|]. unfold get2. rewrite Hrow. simpl.
  destruct (lookup_lt_is_Some_2 row c) as [v Hv]; [lia|]. by rewrite Hv.
Qed.

Lemma shape9_set m r c v : shape9 m → shape9 (set2 m r c v).
Proof.
  intros [Hl Hrows]. unfold set2. split; [by rewrite length_alter|].
  apply Forall_lookup_2. intros i row. destruct (decide (i = r)) as [->|Hne].
  - rewrite list_lookup_alter_eq. intros Hrow.
    destruct (m !! r) as [row0|] eqn:E; simplify_eq/=.
    rewrite length_insert. eapply Forall_lookup_1 in Hrows; eauto.
  - rewrite list_lookup_alter_ne by done. intros Hrow.
    eapply Forall_lookup_1 in Hrows; eauto.
Qed.

Lemma shape9_replicate v : shape9 (replicate 9 (replicate 9 v)).
Proof. split; [done|]. by repeat constructor. Qed.

Lemma cell_set_eq d m r c v :
  shape9 m → r < 9 → c < 9 → get2 d (set2 m r c v) r c = v.
Proof.
  intros Hs Hr Hc. destruct (shape9_row m r Hs Hr) as (row & Hrow & Hlen).
  unfold get2, set2. rewrite list_lookup_alter_eq, Hrow. simpl.
  rewrite list_lookup_insert_eq by lia. done.
Qed.

Lemma cell_set_ne d m r c v r' c' :
  (r, c) ≠ (r', c') → get2 d (set2 m r c v) r' c' = get2 d m r' c'.
Proof.
  intros Hne. unfold get2, set2. destruct (decide (r' = r)) as [->|Hr].
  - rewrite list_lookup_alter_eq. destruct (m !! r) as [row|]; [|done]. simpl.
    rewrite list_lookup_insert_ne; [done|congruence].
  - by rewrite list_lookup_alter_ne.
Qed.

(** Writing the value a cell already holds changes nothing. *)
Lemma set_cell_same d m r c v : get2 d m r c = v → set2 m r c v = m.
Proof.
  intros Hv. unfold set2. apply list_eq. intros i.
  destruct (decide (i = r)) as [->|Hne]; [|by rewrite list_lookup_alter_ne].
  rewrite list_lookup_alter_eq. unfold get2 in Hv.
  destruct (m !! r) as [row|]; [|done]. simpl in *. f_equal.
  destruct (row !! c) as [w|] eqn:E; simpl in Hv.
  - subst. by apply list_insert_id.
  - apply list_insert_ge. by apply lookup_ge_None.
Qed.

Lemma set_cell_set m r c v w : set2 (set2 m r c v) r c w = set2 m r c w.
Proof.
  unfold set2. rewrite list_alter_alter_eq. apply list_alter_ext; [|done].
  intros row _. simpl. apply list_insert_insert_eq.
Qed.

End ArrayFacts.

Lemma shape9_empty : shape9 empty_grid.
Proof. apply shape9_replicate. Qed.

Lemma coords_spec r c : (r, c) ∈ coords ↔ r < 9 ∧ c < 9.
Proof.
  unfold coords. rewrite list_elem_of_bind. split.
  - intros (r' & Hc & Hr). apply list_elem_of_bind in Hc as (c' & Hin & Hc).
    apply list_elem_of_singleton in Hin. inversion Hin; subst.
    apply elem_of_seq in Hr, Hc. lia.
  - intros [Hr Hc]. exists r. split; [|apply elem_of_seq; lia].
    apply list_elem_of_bind. exists c.
    split; [by apply list_elem_of_singleton|apply elem_of_seq; lia].
Qed.

Lemma box_offsets_spec i j : (i, j) ∈ box_offsets ↔ i < 3 ∧ j < 3.
Proof.
  unfold box_offsets. rewrite list_elem_of_bind. split.
  - intros (i' & Hj & Hi). apply list_elem_of_bind in Hj as (j' & Hin & Hj).
    apply list_elem_of_singleton in Hin. inversion Hin; subst.
    apply elem_of_seq in Hi, Hj. lia.
  - intros [Hi Hj]. exists i. split; [|apply elem_of_seq; lia].
    apply list_elem_of_bind. exists j.
    split; [by apply list_elem_of_singleton|apply elem_of_seq; lia].
Qed.

(** The three loops visit exactly the cells of the row, the column and the
    box, the cell [(r, c)] itself among them. *)
Lemma unit_cells_spec r c r' c' :
  r < 9 → c < 9 →
  (r', c') ∈ unit_cells r c ↔ r' < 9 ∧ c' < 9 ∧ same_unit r c r' c'.
Proof.
  intros Hr Hc. unfold unit_cells, same_unit.
  rewrite !elem_of_app, !list_elem_of_fmap. split.
  - intros [(x & [= -> ->] & Hx)|[(x & [= -> ->] & Hx)|([i j] & Heq & Hij)]].
    + apply elem_of_seq in Hx. lia.
    + apply elem_of_seq in Hx. lia.
    + apply pair_equal_spec in Heq as [-> ->].
      apply box_offsets_spec in Hij as [Hi Hj].
      assert (r / 3 < 3 ∧ c / 3 < 3) as [? ?]
        by (split; apply Nat.Div0.div_lt_upper_bound; lia).
      split_and!; [lia..|]. right; right.
      rewrite !Nat.div_add_l by lia.
      rewrite (Nat.div_small i), (Nat.div_small j) by lia. lia.
  - intros (Hr' & Hc' & [->|[->|[Hbr Hbc]]]).
    + left. exists c'. split; [done|apply elem_of_seq; lia].
    + right; left. exists r'. split; [done|apply elem_of_seq; lia].
    + right; right. exists (r' - r / 3 * 3, c' - c / 3 * 3). split.
      * rewrite <- Hbr, <- Hbc.
        pose proof (Nat.div_mod_eq r' 3). pose proof (Nat.div_mod_eq c' 3).
        f_equal; lia.
      * apply box_offsets_spec. rewrite <- Hbr, <- Hbc.
        pose proof (Nat.div_mod_eq r' 3). pose proof (Nat.div_mod_eq c' 3).
        pose proof (Nat.mod_upper_bound r' 3). pose proof (Nat.mod_upper_bound c' 3).
        lia.
Qed.

Section GridFacts.
Import Specs.
Implicit Types (g : Grid) (r c : nat) (v : Z).

(** ** Counting nonzero cells *)

Lemma nonzero_row_cons v row : nonzero_row (v :: row) = is_nz v + nonzero_row row.
Proof.
  unfold nonzero_row, is_nz. rewrite filter_cons. by destruct (decide (v ≠ 0%Z)).
Qed.

Lemma nonzero_row_insert (row : list Z) c v w :
  row !! c = Some w →
  nonzero_row (<[c:=v]> row) + is_nz w = nonzero_row row + is_nz v.
Proof.
  revert c. induction row as [|x row IH]; intros [|c] Hc; simplify_eq/=.
  - rewrite !nonzero_row_cons. lia.
  - rewrite !nonzero_row_cons. specialize (IH c Hc). lia.
Qed.

Lemma nonzero_row_le (row : list Z) : nonzero_row row ≤ length row.
Proof.
  induction row as [|x row IH]; [done|]. rewrite nonzero_row_cons. simpl.
  unfold is_nz. destruct (decide (x ≠ 0%Z)); lia.
Qed.

Lemma nonzero_row_full (row : list Z) :
  Forall (λ v, v ≠ 0%Z) row → nonzero_row row = length row.
Proof.
  induction 1 as [|x row Hx _ IH]; [done|]. rewrite nonzero_row_cons, IH. simpl.
  unfold is_nz. by destruct (decide (x ≠ 0%Z)).
Qed.

Lemma sum_list_alter {A} (f : A → nat) (h : A → A) (l : list A) i x :
  l !! i = Some x →
  sum_list (f <$> alter h i l) + f x = sum_list (f <$> l) + f (h x).
Proof.
  revert i. induction l as [|y l IH]; intros [|i] Hi; simplify_eq/=; [lia|].
  specialize (IH i Hi). lia.
Qed.

Lemma count_nonzero_set g r c v :
  shape9 g → r < 9 → c < 9 →
  count_nonzero (set_cell g r c v) + is_nz (cell g r c)
  = count_nonzero g + is_nz v.
Proof.
  intros Hs Hr Hc.
  destruct (shape9_lookup 0%Z g r c Hs Hr Hc) as (row & Hrow & _ & Hcell).
  unfold count_nonzero, set2.
  pose proof (sum_list_alter nonzero_row (<[c:=v]>) g r row Hrow) as Hsum.
  pose proof (nonzero_row_insert row c v _ Hcell). clear -Hsum H. lia.
Qed.

Lemma count_nonzero_le g : shape9 g → count_nonzero g ≤ 81.
Proof.
  intros [Hl Hrows]. unfold count_nonzero.
  assert (sum_list (nonzero_row <$> g) ≤ 9 * length g) as H; [|lia].
  clear Hl. induction Hrows as [|row g Hrow _ IH]; csimpl; [lia|].
  pose proof (nonzero_row_le row). lia.
Qed.

(** A board without an empty cell has 81 nonzero cells. *)
Lemma count_nonzero_full g :
  shape9 g → (∀ r c, r < 9 → c < 9 → cell g r c ≠ 0%Z) → count_nonzero g = 81.
Proof.
  intros Hs Hfull. pose proof Hs as [Hl Hrows]. unfold count_nonzero.
  assert (Forall (λ row, nonzero_row row = 9) g) as Hnine.
  { apply Forall_lookup_2. intros r row Hrow.
    assert (r < 9) as Hr by (apply lookup_lt_Some in Hrow; lia).
    assert (length row = 9) as Hlen by (eapply Forall_lookup_1 in Hrows; eauto).
    rewrite nonzero_row_full; [done|]. apply Forall_lookup_2. intros c v Hv.
    assert (c < 9) as Hc by (apply lookup_lt_Some in Hv; lia).
    specialize (Hfull r c Hr Hc). unfold get2 in Hfull.
    rewrite Hrow in Hfull. simpl in Hfull. by rewrite Hv in Hfull. }
  assert (sum_list (nonzero_row <$> g) = 9 * length g) as H; [|lia].
  clear -Hnine. induction Hnine as [|row g Hrow _ IH]; csimpl; lia.
Qed.

End GridFacts.

(** ** The generator *)

Module GeneratorFacts.
Import Generator Specs.

Lemma first_empty_None g :
  first_empty g = None → ∀ r c, r < 9 → c < 9 → cell g r c ≠ 0%Z.
Proof.
  intros Hnone r c Hr Hc. unfold first_empty in Hnone.
  assert (In (r, c) coords) as Hin by (apply list_elem_of_In, coords_spec; lia).
  apply (List.find_none _ _ Hnone) in Hin. by apply Z.eqb_neq.
Qed.

Lemma first_empty_Some g r c :
  first_empty g = Some (r, c) → r < 9 ∧ c < 9 ∧ cell g r c = 0%Z.
Proof.
  intros Hsome. apply List.find_some in Hsome as [Hin Hz].
  apply list_elem_of_In, coords_spec in Hin. apply Z.eqb_eq in Hz. lia.
Qed.

(** [isValid] looks at the cell itself too: it rejects the digit the cell
    holds. *)
Lemma isValid_own_cell g row col num :
  col < 9 → isValid g row col num = true → cell g row col ≠ num.
Proof.
  intros Hc Hv. unfold isValid in Hv. apply andb_true_iff in Hv as [Hrow _].
  rewrite forallb_forall in Hrow. specialize (Hrow col).
  rewrite andb_true_iff, !negb_true_iff in Hrow.
  apply Z.eqb_neq, Hrow, list_elem_of_In, elem_of_seq. lia.
Qed.

Lemma try_nums_post rec row col :
  (∀ g k res, rec g k = Some res → fill_post g res) →
  ∀ nums g k res,
    cell g row col = 0%Z →
    try_nums rec row col nums g k = Some res → res.1.1 = false → fill_post g res.
Proof.
  intros Hrec nums. induction nums as [|num nums IH]; intros g k res Hz Hrun Hb.
  - simplify_eq/=. done.
  - simpl in Hrun. destruct (isValid g row col num); [|by eapply IH].
    destruct (rec (set_cell g row col num) k) as [[[[] g1] k1]|] eqn:E;
      simplify_eq/=.
    apply Hrec in E as [_ ->].
    rewrite set_cell_set, (set_cell_same 0%Z g row col 0%Z Hz) in Hrun. by eapply IH.
Qed.

Lemma try_nums_post_true rec row col :
  (∀ g k res, rec g k = Some res → fill_post g res) →
  ∀ nums g k res,
    cell g row col = 0%Z →
    try_nums rec row col nums g k = Some res → res.1.1 = true → fill_post g res.
Proof.
  intros Hrec nums. induction nums as [|num nums IH]; intros g k res Hz Hrun Hb.
  - simplify_eq/=.
  - simpl in Hrun. destruct (isValid g row col num); [|by eapply IH].
    destruct (rec (set_cell g row col num) k) as [[[[] g1] k1]|] eqn:E;
      simplify_eq/=.
    + apply Hrec in E as [Hsh Hfull]. split; [|done].
      intros Hs. by apply Hsh, shape9_set.
    + apply Hrec in E as [_ ->].
      rewrite set_cell_set, (set_cell_same 0%Z g row col 0%Z Hz) in Hrun.
      by eapply IH.
Qed.

Lemma fillGrid_post fuel srt g k res :
  fillGrid fuel srt g k = Some res → fill_post g res.
Proof.
  revert g k res. induction fuel as [|fuel IH]; intros g k res Hrun; [done|].
  simpl in Hrun. destruct (first_empty g) as [[row col]|] eqn:E.
  - apply first_empty_Some in E as (_ & _ & Hz).
    destruct res as [[[] g'] k'].
    + by eapply (try_nums_post_true _ row col (IH)) in Hrun.
    + by eapply (try_nums_post _ row col (IH)) in Hrun.
  - simplify_eq. done.
Qed.

(** [fillGrid] always returns: a recursion bound above the number of empty
    cells is never reached. *)
Lemma try_nums_total rec row col n :
  row < 9 → col < 9 →
  (∀ g k res, rec g k = Some res → fill_post g res) →
  (∀ g k, shape9 g → 81 - count_nonzero g < n → is_Some (rec g k)) →
  ∀ nums g k,
    shape9 g → cell g row col = 0%Z → 81 - count_nonzero g ≤ n →
    is_Some (try_nums rec row col nums g k).
Proof.
  intros Hr Hc Hpost Htot nums.
  induction nums as [|num nums IH]; intros g k Hs Hz Hn; [by eexists|].
  simpl. destruct (isValid g row col num) eqn:Hv; [|by apply IH].
  assert (num ≠ 0%Z) as Hnum.
  { apply (isValid_own_cell _ _ _ _ Hc) in Hv. congruence. }
  pose proof (count_nonzero_set g row col num Hs Hr Hc) as Hcnt.
  pose proof (count_nonzero_le _ (shape9_set g row col num Hs)) as Hle.
  rewrite Hz in Hcnt. unfold is_nz in Hcnt.
  destruct (decide (num ≠ 0%Z)); [|done]. destruct (decide (0 ≠ 0)%Z); [done|].
  destruct (Htot (set_cell g row col num) k) as [[[b g1] k1] E];
    [by apply shape9_set|lia|].
  rewrite E. destruct b; [by eexists|].
  apply Hpost in E as [_ ->].
  rewrite set_cell_set, (set_cell_same 0%Z g row col 0%Z Hz). by apply IH.
Qed.

Lemma fillGrid_total fuel srt g k :
  shape9 g → 81 - count_nonzero g < fuel → is_Some (fillGrid fuel srt g k).
Proof.
  revert g k. induction fuel as [|fuel IH]; intros g k Hs Hn; [lia|].
  simpl. destruct (first_empty g) as [[row col]|] eqn:E; [|by eexists].
  apply first_empty_Some in E as (Hr & Hc & Hz).
  apply (try_nums_total _ row col fuel); auto with lia.
  intros ???. apply fillGrid_post.
Qed.

Lemma count_nonzero_set_le g r c v :
  shape9 g → r < 9 → c < 9 →
  count_nonzero (set_cell g r c v) ≤ count_nonzero g + 1.
Proof.
  intros Hs Hr Hc. pose proof (count_nonzero_set g r c v Hs Hr Hc) as H.
  unfold is_nz in H. repeat case_decide; lia.
Qed.

Lemma fillBox_from_spec offs row col :
  Forall (λ '(i, j), row + i < 9 ∧ col + j < 9) offs →
  ∀ g ds g' ds',
    fillBox_from offs g row col ds = Some (g', ds') → shape9 g →
    shape9 g' ∧ count_nonzero g' ≤ count_nonzero g + length offs.
Proof.
  induction 1 as [|[i j] offs [Hi Hj] _ IH]; intros g ds g' ds' Hrun Hs.
  - simplify_eq/=. split; [done|lia].
  - simpl in Hrun. destruct (draw_digit g row col ds) as [[num rest]|]; [|done].
    apply IH in Hrun as [Hs' Hcnt]; [|by apply shape9_set].
    split; [done|]. simpl.
    pose proof (count_nonzero_set_le g (row + i) (col + j) num Hs Hi Hj). lia.
Qed.

Lemma fillBox_spec g row col ds g' ds' :
  row ≤ 6 → col ≤ 6 → fillBox g row col ds = Some (g', ds') → shape9 g →
  shape9 g' ∧ count_nonzero g' ≤ count_nonzero g + 9.
Proof.
  intros Hr Hc. apply fillBox_from_spec.
  unfold box_offsets. repeat (constructor; [lia|]). constructor.
Qed.

(** After the three diagonal boxes at most 27 cells are filled. *)
Lemma fill_diagonal_spec ds g ds' :
  fill_diagonal empty_grid ds = Some (g, ds') → shape9 g ∧ count_nonzero g ≤ 27.
Proof.
  unfold fill_diagonal. intros Hrun.
  destruct (fillBox empty_grid 0 0 ds) as [[g0 ds0]|] eqn:E0; [|done].
  simpl in Hrun.
  destruct (fillBox g0 3 3 ds0) as [[g3 ds3]|] eqn:E3; [|done]. simpl in Hrun.
  apply fillBox_spec in E0 as [Hs0 Hc0]; [|lia..|apply shape9_empty].
  apply fillBox_spec in E3 as [Hs3 Hc3]; [|lia..|done].
  apply fillBox_spec in Hrun as [Hs6 Hc6]; [|lia..|done].
  split; [done|]. change (count_nonzero empty_grid) with 0 in Hc0. lia.
Qed.

(** The removal loop blanks exactly [n] filled cells and touches nothing
    else. *)
Lemma remove_cells_spec ds : ∀ n g g',
  remove_cells n g ds = Some g' → shape9 g →
  shape9 g' ∧ count_nonzero g = count_nonzero g' + n
  ∧ ∀ r c, cell g' r c = cell g r c ∨ cell g' r c = 0%Z.
Proof.
  remember (length ds) as m eqn:Hm. revert ds Hm.
  induction m as [m IH] using lt_wf_ind. intros ds -> n g g' Hrun Hs.
  destruct n as [|n].
  { destruct ds; simplify_eq/=; (split_and!; [done|lia|auto]). }
  destruct ds as [|dr [|dc rest]]; [done..|]. cbn [remove_cells] in Hrun.
  set (r := dr mod 9) in *. set (c := dc mod 9) in *.
  assert (r < 9 ∧ c < 9) as [Hr Hc]
    by (subst r c; split; apply Nat.mod_upper_bound; lia).
  destruct (cell g r c =? 0)%Z eqn:Hz; cbn [negb] in Hrun.
  - eapply (IH (length rest)) in Hrun; [done|simpl; lia|done..].
  - apply Z.eqb_neq in Hz.
    eapply (IH (length rest)) in Hrun as (Hs' & Hcnt & Hcells);
      [|simpl; lia|done|by apply shape9_set].
    split_and!; [done| |].
    + pose proof (count_nonzero_set g r c 0%Z Hs Hr Hc) as H.
      unfold is_nz in H. repeat case_decide; try done. lia.
    + intros r' c'. destruct (Hcells r' c') as [->|]; [|by right].
      destruct (decide ((r, c) = (r', c'))) as [[= <- <-]|Hne].
      * right. by apply cell_set_eq.
      * left. by apply cell_set_ne.
Qed.

Lemma attempts_tier t : attempts (tier_name t) = Some (tier_removed t).
Proof. by destruct t. Qed.

(** Every run of [generate] that removes more than 27 cells started from a
    complete board: a failed [fillGrid] leaves only the diagonal boxes, on
    which the removal loop cannot finish. *)
Lemma generate_removes difficulty n rnd p :
  attempts difficulty = Some n → 27 < n →
  generate difficulty rnd = Some p →
  count_nonzero (p_solution p) = 81
  ∧ count_nonzero (p_initial p) = 81 - n
  ∧ ∀ r c, cell (p_initial p) r c = cell (p_solution p) r c
           ∨ cell (p_initial p) r c = 0%Z.
Proof.
  intros Hatt Hn Hgen. unfold generate in Hgen. rewrite Hatt in Hgen.
  destruct (fill_diagonal empty_grid (draws rnd)) as [[g1 ds1]|] eqn:Ed; [|done].
  apply fill_diagonal_spec in Ed as [Hs1 Hc1]. cbn [mbind option_bind] in Hgen.
  destruct (fillGrid fill_fuel (sorts rnd) g1 0) as [[[b g2] k]|] eqn:Ef; [|done].
  apply fillGrid_post in Ef as [Hs2 Hpost]. specialize (Hs2 Hs1).
  cbn [mbind option_bind] in Hgen.
  destruct (remove_cells n g2 ds1) as [g3|] eqn:Er; [|done].
  apply remove_cells_spec in Er as (Hs3 & Hcnt & Hcells); [|done].
  simplify_eq/=. destruct b.
  - assert (count_nonzero g2 = 81) as H81.
    { apply count_nonzero_full; [done|]. by apply first_empty_None. }
    split_and!; [done|lia|done].
  - subst g2. lia.
Qed.

(** Whatever the difficulty argument, [initial] is [solution] with some
    cells blanked. *)
Lemma generate_subset difficulty rnd p :
  generate difficulty rnd = Some p →
  ∀ r c, cell (p_initial p) r c = cell (p_solution p) r c
         ∨ cell (p_initial p) r c = 0%Z.
Proof.
  intros Hgen. unfold generate in Hgen.
  destruct (fill_diagonal empty_grid (draws rnd)) as [[g1 ds1]|] eqn:Ed; [|done].
  apply fill_diagonal_spec in Ed as [Hs1 _]. cbn [mbind option_bind] in Hgen.
  destruct (fillGrid fill_fuel (sorts rnd) g1 0) as [[[b g2] k]|] eqn:Ef; [|done].
  apply fillGrid_post in Ef as [Hs2 _]. specialize (Hs2 Hs1).
  cbn [mbind option_bind] in Hgen.
  destruct (attempts difficulty) as [n|].
  - destruct (remove_cells n g2 ds1) as [g3|] eqn:Er; [|done].
    apply remove_cells_spec in Er as (_ & _ & Hcells); [|done].
    by simplify_eq/=.
  - simplify_eq/=. by left.
Qed.

(** The recursion bound of [generate] is never the reason for a missing
    result: on the board left by the diagonal boxes [fillGrid] returns. *)
Lemma generate_fill_returns ds g ds' srt :
  fill_diagonal empty_grid ds = Some (g, ds') →
  is_Some (fillGrid fill_fuel srt g 0).
Proof.
  intros [Hs _]%fill_diagonal_spec. apply fillGrid_total; [done|].
  unfold fill_fuel. lia.
Qed.

End GeneratorFacts.

(** ** The constraint checker *)

Module CheckerFacts.
Import Generator Specs.

Lemma forallb_fmap {A B} (f : B → bool) (h : A → B) (l : list A) :
  forallb f (h <$> l) = forallb (f ∘ h) l.
Proof. induction l as [|x l IH]; [done|]. csimpl. by rewrite IH. Qed.

Lemma forallb_bind {A B} (f : B → bool) (h : A → list B) (l : list A) :
  forallb f (l ≫= h) = forallb (λ x, forallb f (h x)) l.
Proof.
  induction l as [|x l IH]; [done|]. csimpl. by rewrite forallb_app, IH.
Qed.

Lemma forallb_andb {A} (a b : A → bool) (l : list A) :
  forallb (λ x, a x && b x) l = forallb a l && forallb b l.
Proof.
  induction l as [|x l IH]; [done|]. simpl. rewrite IH.
  destruct (a x), (b x), (forallb a l); done.
Qed.

Lemma forallb_false_iff {A} (f : A → bool) (l : list A) :
  forallb f l = false ↔ ∃ x, x ∈ l ∧ f x = false.
Proof.
  induction l as [|x l IH]; simpl.
  - split; [done|]. intros (x & Hx & _). by apply elem_of_nil in Hx.
  - rewrite andb_false_iff, IH. split.
    + intros [Hx|(y & Hy & Hf)]; [exists x|exists y]; split; try done;
        [left|by right].
    + intros (y & Hy & Hf). apply elem_of_cons in Hy as [->|Hy]; [by left|].
      right. by exists y.
Qed.

(** [isValid] accepts [num] exactly when none of the 27 cell visits of its
    loops finds it. *)
Lemma isValid_unit_cells g row col num :
  isValid g row col num
  = forallb (λ '(r, c), negb (cell g r c =? num)%Z) (unit_cells row col).
Proof.
  unfold isValid, unit_cells, box_offsets.
  rewrite !forallb_app, !forallb_fmap, forallb_bind, forallb_andb.
  rewrite <- andb_assoc. by do 2 f_equal.
Qed.

Lemma cell_empty_grid r c : cell empty_grid r c = 0%Z.
Proof.
  unfold get2, empty_grid. destruct (decide (r < 9)) as [Hr|Hr].
  - rewrite lookup_replicate_2 by done. cbn [mbind option_bind].
    destruct (decide (c < 9)) as [Hc|Hc]; [by rewrite lookup_replicate_2|].
    by rewrite lookup_ge_None_2 by (rewrite length_replicate; lia).
  - by rewrite lookup_ge_None_2 by (rewrite length_replicate; lia).
Qed.

(** C2, as stated, fails: on the board whose only digit is a 7 at (4,4),
    [isValid(grid, 4, 4, 7)] is [false] although 7 appears nowhere else. *)
Lemma isValid_own_digit_rejected :
  let g := set_cell empty_grid 4 4 7%Z in
  isValid g 4 4 7%Z = false ∧ ¬ appears_elsewhere g 4 4 7%Z.
Proof.
  split; [by vm_compute|].
  intros (r & c & _ & _ & _ & Hne & Hcell).
  rewrite cell_set_ne, cell_empty_grid in Hcell by done. done.
Qed.

(** C2, amended. On a 9x9 grid and for indices within it,
    [isValid(grid, row, col, digit)] returns [false] exactly when [digit]
    stands in some cell of the row, the column or the 3x3 box of
    [(row, col)], the cell [(row, col)] itself included, and [true]
    otherwise. *)
Theorem isValid_false_iff g row col num :
  shape9 g → row < 9 → col < 9 →
  isValid g row col num = false
  ↔ ∃ r c, r < 9 ∧ c < 9 ∧ same_unit row col r c ∧ cell g r c = num.
Proof.
  intros _ Hrow Hcol. rewrite isValid_unit_cells, forallb_false_iff. split.
  - intros ([r c] & Hin & Hf). apply unit_cells_spec in Hin as (? & ? & ?); [|done..].
    apply negb_false_iff, Z.eqb_eq in Hf. by exists r, c.
  - intros (r & c & Hr & Hc & Hunit & Hcell). exists (r, c). split.
    + by apply unit_cells_spec.
    + by apply negb_false_iff, Z.eqb_eq.
Qed.

Lemma isValid_false_iff_witness :
  isValid (set_cell empty_grid 4 4 7%Z) 4 4 7%Z = false
  ↔ ∃ r c, r < 9 ∧ c < 9 ∧ same_unit 4 4 r c
           ∧ cell (set_cell empty_grid 4 4 7%Z) r c = 7%Z.
Proof.
  apply (isValid_false_iff (set_cell empty_grid 4 4 7%Z) 4 4 7%Z).
  - apply shape9_set, shape9_empty.
  - lia.
  - lia.
Defined.

End CheckerFacts.

(** ** The sample session *)

Module SampleFacts.
Import Generator Session Samples Specs.

Lemma sample_start_eq :
  startGame "easy" Samples.sample_random state0 = Some sample_start.
Proof. by vm_compute. Qed.

(** The sample puzzle, written out. *)
Lemma sample_start_boards :
  solution sample_start
  = [[1; 2; 3; 5; 4; 7; 6; 9; 8]; [4; 5; 6; 2; 9; 8; 3; 1; 7];
     [7; 8; 9; 3; 6; 1; 2; 4; 5]; [5; 6; 8; 1; 2; 3; 9; 7; 4];
     [9; 1; 7; 4; 5; 6; 8; 3; 2]; [2; 3; 4; 7; 8; 9; 5; 6; 1];
     [6; 9; 5; 8; 7; 4; 1; 2; 3]; [8; 7; 1; 9; 3; 2; 4; 5; 6];
     [3; 4; 2; 6; 1; 5; 7; 8; 9]]%Z
  ∧ initial sample_start
  = [[0; 0; 0; 0; 0; 0; 0; 0; 0]; [0; 0; 0; 0; 0; 0; 0; 0; 0];
     [0; 0; 0; 0; 0; 0; 0; 0; 0]; [0; 0; 0; 1; 2; 3; 9; 7; 4];
     [9; 1; 7; 4; 5; 6; 8; 3; 2]; [2; 3; 4; 7; 8; 9; 5; 6; 1];
     [6; 9; 5; 8; 7; 4; 1; 2; 3]; [8; 7; 1; 9; 3; 2; 4; 5; 6];
     [3; 4; 2; 6; 1; 5; 7; 8; 9]]%Z
  ∧ grid sample_start = initial sample_start
  ∧ score sample_start = 0%Z ∧ mistakes sample_start = 0
  ∧ isNoteMode sample_start = false ∧ selectedCell sample_start = None.
Proof. by vm_compute. Qed.

Lemma sample_opened : opened sample_start.
Proof.
  exists "easy"%string, Samples.sample_random, state0.
  split; [done|apply sample_start_eq].
Qed.

End SampleFacts.

(** ** The search finds a solution whenever there is one *)

Module SearchFacts.
Import Generator GeneratorFacts CheckerFacts Session Samples Specs.

Lemma solvedb_spec sol : shape9 sol → solvedb sol = true → solved sol.
Proof.
  intros Hs Hb. unfold solvedb in Hb. rewrite forallb_forall in Hb.
  assert (∀ r c, r < 9 → c < 9 →
    (1 ≤ cell sol r c ≤ 9)%Z
    ∧ ∀ r' c', (r', c') ∈ unit_cells r c → (r', c') ≠ (r, c) →
               cell sol r' c' ≠ cell sol r c) as H.
  { intros r c Hr Hc. specialize (Hb (r, c)). cbn beta iota in Hb.
    rewrite !andb_true_iff, forallb_forall in Hb.
    destruct Hb as [[Hlo Hhi] Hunit]; [by apply list_elem_of_In, coords_spec|].
    split; [lia|]. intros r' c' Hin Hne.
    specialize (Hunit (r', c')). cbn beta iota in Hunit.
    rewrite orb_true_iff, negb_true_iff in Hunit.
    destruct Hunit as [Heq|Hneq]; [by apply list_elem_of_In| |].
    - by apply bool_decide_eq_true in Heq.
    - by apply Z.eqb_neq. }
  split_and!; [done| |].
  - intros r c Hr Hc. by apply H.
  - intros r c r' c' Hr Hc Hr' Hc' Hunit Hne.
    apply H; [done..| |done]. by apply unit_cells_spec.
Qed.

Lemma extendsb_spec g sol : extendsb g sol = true → extends g sol.
Proof.
  unfold extendsb. rewrite forallb_forall. intros Hb r c Hr Hc Hnz.
  specialize (Hb (r, c)). cbn beta iota in Hb.
  rewrite orb_true_iff in Hb.
  destruct Hb as [Hz|Heq]; [by apply list_elem_of_In, coords_spec| |].
  - by apply Z.eqb_eq in Hz.
  - by apply Z.eqb_eq.
Qed.

Lemma extends_set g sol r c :
  shape9 g → r < 9 → c < 9 → extends g sol →
  extends (set_cell g r c (cell sol r c)) sol.
Proof.
  intros Hs Hr Hc Hext r' c' Hr' Hc' Hnz.
  destruct (decide ((r, c) = (r', c'))) as [[= <- <-]|Hne].
  - by rewrite cell_set_eq.
  - rewrite cell_set_ne in * by done. by apply Hext.
Qed.

(** At an empty cell the digit of a solution that the board agrees with
    passes [isValid]. *)
Lemma isValid_solution_digit g sol row col :
  solved sol → extends g sol → row < 9 → col < 9 → cell g row col = 0%Z →
  isValid g row col (cell sol row col) = true.
Proof.
  intros (_ & Hdigit & Hdiff) Hext Hrow Hcol Hempty.
  rewrite isValid_unit_cells. apply forallb_forall. intros [r c] Hin.
  apply list_elem_of_In, unit_cells_spec in Hin as (Hr & Hc & Hunit); [|done..].
  apply negb_true_iff, Z.eqb_neq. intros Heq.
  pose proof (Hdigit row col Hrow Hcol) as Hd.
  assert (cell g r c ≠ 0%Z) as Hnz by lia.
  destruct (decide ((r, c) = (row, col))) as [[= -> ->]|Hne]; [done|].
  rewrite (Hext r c Hr Hc Hnz) in Heq. by apply (Hdiff row col r c).
Qed.

(** [fillGrid] is complete: on a board that some solution extends, with
    shuffles that hold every digit, it returns [true]. *)
Lemma fillGrid_complete srt sol :
  solved sol → (∀ k d, (1 ≤ d ≤ 9)%Z → d ∈ srt k) →
  ∀ fuel g k,
    shape9 g → extends g sol → 81 - count_nonzero g < fuel →
    ∃ g' k', fillGrid fuel srt g k = Some (true, g', k').
Proof.
  intros Hsol Hsrt fuel. induction fuel as [|fuel IH]; intros g k Hs Hext Hn;
    [lia|].
  simpl. destruct (first_empty g) as [[row col]|] eqn:E; [|by eexists _, _].
  apply first_empty_Some in E as (Hr & Hc & Hz).
  set (d := cell sol row col).
  assert (1 ≤ d ≤ 9)%Z as Hd
    by (destruct Hsol as (_ & Hdigit & _); by apply Hdigit).
  assert (count_nonzero g < 81) as Hcnt.
  { pose proof (count_nonzero_set g row col d Hs Hr Hc) as Hset.
    pose proof (count_nonzero_le _ (shape9_set g row col d Hs)) as Hle.
    rewrite Hz in Hset. unfold is_nz in Hset.
    repeat case_decide; try done; lia. }
  assert (∀ nums k1, d ∈ nums →
    ∃ g' k', try_nums (fillGrid fuel srt) row col nums g k1
             = Some (true, g', k')) as Hloop; [|by apply Hloop, Hsrt].
  intros nums. induction nums as [|num nums IHnums]; intros k1 Hin;
    [by apply elem_of_nil in Hin|].
  simpl. destruct (isValid g row col num) eqn:Hv.
  - assert (num ≠ 0%Z) as Hnum.
    { apply (isValid_own_cell _ _ _ _ Hc) in Hv. congruence. }
    assert (81 - count_nonzero (set_cell g row col num) < fuel) as Hfuel.
    { pose proof (count_nonzero_set g row col num Hs Hr Hc) as Hset.
      rewrite Hz in Hset. unfold is_nz in Hset.
      repeat case_decide; try done; lia. }
    destruct (fillGrid_total fuel srt (set_cell g row col num) k1)
      as [[[b g1] k1'] Hrec]; [by apply shape9_set|done|].
    rewrite Hrec. destruct b; [by eexists _, _|].
    pose proof (fillGrid_post _ _ _ _ _ Hrec) as [_ ->].
    rewrite set_cell_set, (set_cell_same 0%Z g row col 0%Z Hz).
    apply IHnums. apply elem_of_cons in Hin as [Heq|Hin]; [|done].
    subst num. exfalso.
    destruct (IH (set_cell g row col d) k1) as (g' & k' & Htrue);
      [by apply shape9_set|by apply extends_set|done|congruence].
  - apply IHnums. apply elem_of_cons in Hin as [Heq|Hin]; [|done].
    subst num. by rewrite (isValid_solution_digit g sol) in Hv.
Qed.

(** The removal loop finishes when it is offered enough different filled
    cells. *)
Lemma remove_cells_fresh cells : ∀ n g,
  NoDup cells → Forall (λ '(r, c), r < 9 ∧ c < 9 ∧ cell g r c ≠ 0%Z) cells →
  shape9 g → n ≤ length cells →
  is_Some (remove_cells n g (cells ≫= λ '(r, c), [r; c])).
Proof.
  induction cells as [|[r c] cells IH]; intros n g Hnd Hcells Hs Hn.
  { simpl in Hn. assert (n = 0) as -> by lia. by eexists. }
  destruct n as [|n]; [by eexists|].
  apply NoDup_cons in Hnd as [Hnot Hnd].
  apply Forall_cons in Hcells as [(Hr & Hc & Hnz) Hcells].
  change (((r, c) :: cells) ≫= λ '(r, c), [r; c])
    with (r :: c :: (cells ≫= λ '(r, c), [r; c])).
  cbn [remove_cells]. rewrite !Nat.mod_small by done.
  rewrite (proj2 (Z.eqb_neq _ _) Hnz). cbn [negb].
  apply IH; [done| |by apply shape9_set|simpl in Hn; lia].
  apply Forall_forall. intros [r' c'] Hin.
  rewrite Forall_forall in Hcells. specialize (Hcells _ Hin) as (? & ? & ?).
  split_and!; [done..|]. rewrite cell_set_ne; [done|].
  intros [= -> ->]. done.
Qed.

Lemma sample_diagonal_eq :
  fill_diagonal empty_grid sample_draws
  = Some (sample_diagonal, coords ≫= λ '(r, c), [r; c]).
Proof. by vm_compute. Qed.

Lemma sample_solution_solved : solved (solution sample_start).
Proof.
  apply solvedb_spec; [|by vm_compute].
  rewrite (proj1 SampleFacts.sample_start_boards). split; [done|].
  by repeat constructor.
Qed.

(** Whatever arrays the shuffles produce, as long as each holds the nine
    digits, [generate] returns for every tier on the draws of
    [sample_draws]. *)
Lemma generate_returns t srt :
  (∀ k d, (1 ≤ d ≤ 9)%Z → d ∈ srt k) →
  is_Some (generate (tier_name t) (mkRandom sample_draws srt)).
Proof.
  intros Hsrt. unfold generate. cbn [draws sorts].
  rewrite sample_diagonal_eq. cbn [mbind option_bind].
  destruct (fillGrid_complete srt (solution sample_start)
              sample_solution_solved Hsrt fill_fuel sample_diagonal 0)
    as (g2 & k2 & Hfill).
  - pose proof sample_diagonal_eq as [Hs _]%fill_diagonal_spec. done.
  - apply extendsb_spec. by vm_compute.
  - unfold fill_fuel. lia.
  - rewrite Hfill. cbn [mbind option_bind]. rewrite attempts_tier.
    pose proof (fillGrid_post _ _ _ _ _ Hfill) as [Hs2 Hfull].
    pose proof sample_diagonal_eq as [Hs1 _]%fill_diagonal_spec.
    destruct (remove_cells_fresh coords (tier_removed t) g2) as [g3 ->];
      [| |by apply Hs2| |by eexists].
    + apply (bool_decide_unpack _). by vm_compute.
    + apply Forall_forall. intros [r c] [Hr Hc]%coords_spec.
      split_and!; [done..|]. by apply first_empty_None.
    + destruct t; vm_compute; lia.
Qed.

End SearchFacts.

Module GeneratorClaims.
Import Generator GeneratorFacts SearchFacts Samples Specs.

(** C1. For each of the four tiers [generate] returns on suitable draws of
    [Math.random], whatever the shuffles produce from the nine digits, and
    every run that returns yields a puzzle whose [initial] has 81 minus the
    tier's removal count (30, 40, 50, 55) nonzero cells, each of them equal
    to the cell of [solution] at the same place. *)
Theorem generate_tier_count (t : Tier) :
  (∀ srt, (∀ k d, (1 ≤ d ≤ 9)%Z → d ∈ srt k) →
     ∃ ds, is_Some (generate (tier_name t) (mkRandom ds srt)))
  ∧ ∀ rnd p, generate (tier_name t) rnd = Some p →
      count_nonzero (p_initial p) = 81 - tier_removed t
      ∧ ∀ r c, cell (p_initial p) r c ≠ 0%Z →
               cell (p_initial p) r c = cell (p_solution p) r c.
Proof.
  split.
  - intros srt Hsrt. exists sample_draws. by apply generate_returns.
  - intros rnd p Hgen.
    destruct (generate_removes _ _ _ _ (attempts_tier t)
                ltac:(destruct t; simpl; lia) Hgen) as (_ & Hcnt & Hcells).
    split; [done|]. intros r c Hnz. by destruct (Hcells r c).
Qed.

Lemma generate_tier_count_witness :
  ∃ p, generate "easy" sample_random = Some p
       ∧ count_nonzero (p_initial p) = 51
       ∧ cell (p_initial p) 8 8 = cell (p_solution p) 8 8.
Proof.
  destruct (generate "easy" sample_random) as [p|] eqn:E; [|by vm_compute in E].
  exists p. split; [done|].
  destruct (proj2 (generate_tier_count Easy) sample_random p E) as [Hcnt Hcells].
  split; [done|]. apply Hcells.
  vm_compute in E. injection E as <-. by vm_compute.
Defined.

End GeneratorClaims.

(** The cell lists stay folded in the proofs about the session. *)
Opaque unit_cells coords.

(** ** Notes *)

Module NoteFacts.
Import Session Specs.

Lemma remove_first_notin num l : num ∉ l → remove_first num l = l.
Proof.
  induction l as [|x l IH]; [done|]. intros Hnot. simpl.
  apply not_elem_of_cons in Hnot as [Hne Hnot].
  destruct (decide (x = num)); [congruence|]. by rewrite IH.
Qed.

Lemma elem_of_remove_first num l d : d ∈ remove_first num l → d ∈ l.
Proof.
  induction l as [|x l IH]; [done|]. simpl.
  destruct (decide (x = num)); [by right|].
  intros [->|Hd]%elem_of_cons; [left|right; auto].
Qed.

Lemma elem_of_remove_first_ne num l d :
  d ≠ num → d ∈ remove_first num l ↔ d ∈ l.
Proof.
  intros Hne. split; [apply elem_of_remove_first|].
  induction l as [|x l IH]; [done|]. simpl.
  intros [->|Hd]%elem_of_cons; destruct (decide (x = num)); subst;
    try done; try (by left); right; auto.
Qed.

Lemma NoDup_remove_first num l : NoDup l → NoDup (remove_first num l).
Proof.
  induction 1 as [|x l Hx Hl IH]; [constructor|]. simpl.
  destruct (decide (x = num)); [done|]. constructor; [|done].
  intros Hin. by apply Hx, (elem_of_remove_first num).
Qed.

(** On a list without repetition, removing the first occurrence removes the
    digit. *)
Lemma remove_first_absent num l : NoDup l → num ∉ remove_first num l.
Proof.
  induction 1 as [|x l Hx Hl IH]; [by apply not_elem_of_nil|]. simpl.
  destruct (decide (x = num)) as [->|Hne]; [done|].
  by apply not_elem_of_cons.
Qed.

Lemma remove_first_idemp num l :
  NoDup l → remove_first num (remove_first num l) = remove_first num l.
Proof. intros Hl. by apply remove_first_notin, remove_first_absent. Qed.

(** Reading after one write, whatever the indices. *)
Lemma get2_set2_cases {A} (d : A) m r c v r' c' :
  (get2 d (set2 m r c v) r' c' = v ∧ (r', c') = (r, c))
  ∨ get2 d (set2 m r c v) r' c' = get2 d m r' c'.
Proof.
  destruct (decide ((r, c) = (r', c'))) as [[= <- <-]|Hne];
    [|right; by apply cell_set_ne].
  unfold get2, set2. rewrite list_lookup_alter_eq.
  destruct (m !! r) as [row|]; [|by right]. simpl.
  destruct (decide (c < length row)) as [Hc|Hc].
  - left. by rewrite list_lookup_insert_eq.
  - right. by rewrite list_insert_ge by lia.
Qed.

Lemma removeNote_at num ns p r c :
  note_at (removeNote num ns p) r c
  = if decide (p = (r, c)) then remove_first num (note_at ns r c)
    else note_at ns r c.
Proof.
  unfold removeNote. destruct p as [pr pc]. simpl.
  destruct (decide ((pr, pc) = (r, c))) as [[= -> ->]|Hne];
    [|by apply cell_set_ne].
  destruct (get2_set2_cases [] ns r c (remove_first num (note_at ns r c)) r c)
    as [[-> _]|Hsame]; [done|].
  rewrite Hsame. unfold get2, set2 in *.
  rewrite list_lookup_alter_eq in Hsame.
  destruct (ns !! r) as [row|]; [|done]. simpl in *.
  destruct (decide (c < length row)) as [Hc|Hc].
  - rewrite list_lookup_insert_eq in Hsame by done. simpl in Hsame.
    destruct (lookup_lt_is_Some_2 row c Hc) as [l Hl]. rewrite Hl in *.
    simpl in *. by rewrite <- Hsame at 1.
  - rewrite lookup_ge_None_2 by lia. done.
Qed.

(** The notes of a cell after the loops of [clearNotesForMove] went over
    [cells]. *)
Lemma foldl_removeNote_at num cells r c : ∀ ns,
  NoDup (note_at ns r c) →
  note_at (foldl (removeNote num) ns cells) r c
  = if decide ((r, c) ∈ cells) then remove_first num (note_at ns r c)
    else note_at ns r c.
Proof.
  induction cells as [|p cells IH]; intros ns Hnd; simpl.
  { destruct (decide ((r, c) ∈ [])) as [Hin|]; [by apply elem_of_nil in Hin|done]. }
  rewrite IH; rewrite removeNote_at.
  - destruct (decide (p = (r, c))) as [->|Hne].
    + rewrite remove_first_idemp by done.
      destruct (decide ((r, c) ∈ (r, c) :: cells)) as [|Hnot];
        [|exfalso; apply Hnot; left].
      by destruct (decide ((r, c) ∈ cells)).
    + destruct (decide ((r, c) ∈ cells)) as [Hin|Hnot].
      * rewrite decide_True; [done|by right].
      * rewrite decide_False; [done|].
        intros [?|?]%elem_of_cons; congruence.
  - destruct (decide (p = (r, c))); [by apply NoDup_remove_first|done].
Qed.

End NoteFacts.

(** ** The handlers, case by case *)

Module SessionFacts.
Import Session NoteFacts Specs.

Lemma inputNumber_outcome num s : input_outcome num s (inputNumber num s).
Proof.
  unfold inputNumber.
  destruct (isGameOver s) eqn:Hover; [constructor; by left|].
  destruct (selectedCell s) as [[r c]|] eqn:Hsel;
    [|constructor; right; by left].
  destruct (cell (initial s) r c =? 0)%Z eqn:Hfix; simpl.
  2:{ constructor. right; right. exists r, c. split; [done|]. left.
      by apply Z.eqb_neq. }
  apply Z.eqb_eq in Hfix.
  destruct (isNoteMode s) eqn:Hmode; [by eapply input_note|].
  destruct (cell (grid s) r c =? num)%Z eqn:Hsame.
  { constructor. right; right. exists r, c. split; [done|]. right.
    by apply Z.eqb_eq in Hsame. }
  apply Z.eqb_neq in Hsame.
  destruct (num =? 0)%Z eqn:Hz; simpl.
  { apply Z.eqb_eq in Hz. by eapply input_erase. }
  apply Z.eqb_neq in Hz.
  destruct (num =? cell (solution s) r c)%Z eqn:Hsol; simpl.
  - apply Z.eqb_eq in Hsol. by eapply input_correct.
  - apply Z.eqb_neq in Hsol. by eapply input_mistake.
Qed.

(** A normal-mode move on a free cell that changes its value. *)
Lemma inputNumber_move s r c num :
  isGameOver s = false → selectedCell s = Some (r, c) →
  cell (initial s) r c = 0%Z → isNoteMode s = false →
  num ≠ cell (grid s) r c →
  inputNumber num s
  = if decide (num = 0%Z) then written r c num s
    else if decide (num = cell (solution s) r c)
         then clearNotesForMove r c num (checkCompletion (written r c num s))
         else handleMistake r c (written r c num s).
Proof.
  intros Hover Hsel Hfix Hmode Hne. unfold inputNumber.
  rewrite Hover, Hsel, Hfix, Hmode. simpl.
  rewrite (proj2 (Z.eqb_neq _ _)) by done.
  destruct (decide (num = 0%Z)) as [->|Hz]; [done|].
  rewrite (proj2 (Z.eqb_neq _ _) Hz). simpl.
  destruct (decide (num = cell (solution s) r c)) as [Hsol|Hsol].
  - by rewrite (proj2 (Z.eqb_eq _ _)).
  - by rewrite (proj2 (Z.eqb_neq _ _)).
Qed.

(** What [checkCompletion] and [handleMistake] leave alone. *)
Lemma checkCompletion_keeps s :
  let s' := checkCompletion s in
  grid s' = grid s ∧ solution s' = solution s ∧ initial s' = initial s
  ∧ notes s' = notes s ∧ selectedCell s' = selectedCell s
  ∧ history s' = history s ∧ mistakes s' = mistakes s
  ∧ isNoteMode s' = isNoteMode s ∧ score s' = (score s + 10)%Z.
Proof. unfold checkCompletion. by case_match. Qed.

Lemma handleMistake_keeps r c s :
  let s' := handleMistake r c s in
  grid s' = grid s ∧ solution s' = solution s ∧ initial s' = initial s
  ∧ notes s' = notes s ∧ selectedCell s' = selectedCell s
  ∧ history s' = history s ∧ isNoteMode s' = isNoteMode s.
Proof. unfold handleMistake. by case_match. Qed.

End SessionFacts.

(** ** Mistakes *)

Module MistakeClaims.
Import Session SessionFacts Specs.
#[local] Arguments Nat.leb : simpl never.

(** C3, as stated, fails at the third mistake: after two wrong digits and
    one right digit at (0,0) the score is 10; a wrong digit at (0,1) then
    ends the session and leaves the score at 10 instead of deducting 50. *)
Lemma third_mistake_no_penalty :
  let s := run [SelectCell 0 0; InputNumber 2; InputNumber 3; InputNumber 1;
                SelectCell 0 1] sample_start in
  let s' := inputNumber 1 s in
  isGameOver s = false ∧ isNoteMode s = false ∧ selectedCell s = Some (0, 1)
  ∧ cell (initial s) 0 1 = 0%Z ∧ cell (grid s) 0 1 = 0%Z
  ∧ cell (solution s) 0 1 = 2%Z ∧ mistakes s = 2 ∧ score s = 10%Z
  ∧ mistakes s' = 3 ∧ isGameOver s' = true
  ∧ score s' = 10%Z ∧ score s' ≠ Z.max 0 (score s - 50).
Proof. by vm_compute. Qed.

(** The effect of a mismatching digit on mistake count, flag and score. *)
Lemma mismatch_effect s r c num :
  isGameOver s = false → selectedCell s = Some (r, c) →
  isNoteMode s = false → cell (initial s) r c = 0%Z →
  num ≠ 0%Z → num ≠ cell (grid s) r c → num ≠ cell (solution s) r c →
  let s' := inputNumber num s in
  mistakes s' = mistakes s + 1
  ∧ isGameOver s' = bool_decide (MAX_MISTAKES ≤ mistakes s + 1)
  ∧ score s' = if isGameOver s' then score s
               else Z.max 0 (score s - 50).
Proof.
  intros Hover Hsel Hmode Hfix Hz Hprev Hsol. simpl.
  rewrite (inputNumber_move s r c num) by done.
  rewrite decide_False, decide_False by done.
  unfold handleMistake, written, addToHistory, gameOver. simpl.
  destruct (Nat.leb_spec MAX_MISTAKES (mistakes s + 1)); simpl.
  - by rewrite bool_decide_eq_true_2.
  - rewrite Hover. by rewrite bool_decide_eq_false_2 by lia.
Qed.

(** C3, amended. A normal-mode move on a non-fixed cell that enters a
    nonzero digit different from the cell's value and from the solution
    increments the mistake count, and the session is over afterwards exactly
    when the count has reached 3.  The 50-point penalty (floored at 0) is
    deducted only when the session goes on; the move that brings the count
    to 3 leaves the score as it is. *)
Theorem mismatch_move s r c num :
  isGameOver s = false → selectedCell s = Some (r, c) →
  isNoteMode s = false → cell (initial s) r c = 0%Z →
  num ≠ 0%Z → num ≠ cell (grid s) r c → num ≠ cell (solution s) r c →
  let s' := inputNumber num s in
  mistakes s' = mistakes s + 1
  ∧ (isGameOver s' = true ↔ MAX_MISTAKES ≤ mistakes s')
  ∧ score s' = if isGameOver s' then score s
               else Z.max 0 (score s - 50).
Proof.
  intros Hover Hsel Hmode Hfix Hz Hprev Hsol.
  destruct (mismatch_effect s r c num) as (Hm & Ho & Hsc); try done.
  simpl in *. split_and!; [done| |done].
  rewrite Ho, Hm. apply bool_decide_eq_true.
Qed.

Lemma mismatch_move_witness :
  let s := run [SelectCell 0 0] sample_start in
  let s' := inputNumber 2 s in
  mistakes s' = mistakes s + 1
  ∧ (isGameOver s' = true ↔ MAX_MISTAKES ≤ mistakes s')
  ∧ score s' = if isGameOver s' then score s
               else Z.max 0 (score s - 50).
Proof.
  apply (mismatch_move (run [SelectCell 0 0] sample_start) 0 0 2);
    by vm_compute.
Defined.

(** Three wrong digits one after the other in a session without mistakes:
    the first two cost up to 50 points each, the third none. *)
Lemma three_mistakes_in_a_row s r c n1 n2 n3 :
  isGameOver s = false → selectedCell s = Some (r, c) →
  isNoteMode s = false → cell (initial s) r c = 0%Z → mistakes s = 0 →
  shape9 (grid s) → r < 9 → c < 9 →
  n1 ≠ 0%Z → n2 ≠ 0%Z → n3 ≠ 0%Z →
  n1 ≠ cell (grid s) r c → n2 ≠ n1 → n3 ≠ n2 →
  n1 ≠ cell (solution s) r c → n2 ≠ cell (solution s) r c →
  n3 ≠ cell (solution s) r c →
  let s' := inputNumber n3 (inputNumber n2 (inputNumber n1 s)) in
  isGameOver s' = true ∧ mistakes s' = 3
  ∧ score s' = Z.max 0 (Z.max 0 (score s - 50) - 50).
Proof.
  intros Hover Hsel Hmode Hfix Hm Hs Hr Hc Hz1 Hz2 Hz3 Hp1 Hp2 Hp3 Hs1 Hs2 Hs3.
  simpl.
  assert (∀ t n, isGameOver t = false → selectedCell t = Some (r, c) →
    isNoteMode t = false → cell (initial t) r c = 0%Z → shape9 (grid t) →
    n ≠ 0%Z → n ≠ cell (grid t) r c → n ≠ cell (solution t) r c →
    let t' := inputNumber n t in
    selectedCell t' = Some (r, c) ∧ isNoteMode t' = false
    ∧ initial t' = initial t ∧ solution t' = solution t
    ∧ shape9 (grid t') ∧ cell (grid t') r c = n) as Hframe.
  { intros t n Hover' Hsel' Hmode' Hfix' Hs' Hz' Hp' Hsol'. simpl.
    rewrite (inputNumber_move t r c n) by done.
    rewrite decide_False, decide_False by done.
    destruct (handleMistake_keeps r c (written r c n t))
      as (-> & -> & -> & _ & -> & _ & ->). simpl.
    split_and!; try done; [by apply shape9_set|by apply cell_set_eq]. }
  destruct (mismatch_effect s r c n1) as (Hm1 & Ho1 & Hsc1); try done.
  destruct (Hframe s n1) as (Hsel1 & Hmode1 & Hi1 & Hsol1 & Hsh1 & Hg1);
    try done.
  rewrite Hm in Hm1, Ho1. simpl in Ho1. rewrite Ho1 in Hsc1.
  set (s1 := inputNumber n1 s) in *.
  destruct (mismatch_effect s1 r c n2) as (Hm2 & Ho2 & Hsc2);
    try done; try congruence.
  destruct (Hframe s1 n2) as (Hsel2 & Hmode2 & Hi2 & Hsol2 & Hsh2 & Hg2);
    try done; try congruence.
  rewrite Hm1 in Hm2, Ho2. simpl in Ho2. rewrite Ho2 in Hsc2.
  set (s2 := inputNumber n2 s1) in *.
  destruct (mismatch_effect s2 r c n3) as (Hm3 & Ho3 & Hsc3);
    try done; try congruence.
  rewrite Hm2 in Hm3, Ho3. simpl in Ho3. rewrite Ho3 in Hsc3.
  split_and!; [done..|]. by rewrite Hsc3, Hsc2, Hsc1.
Qed.

End MistakeClaims.

(** ** Sessions and what every state of a session satisfies *)

Module Invariants.
Import Generator GeneratorFacts Session NoteFacts SessionFacts Specs.

Ltac wf_split := unfold wf; refine (conj _ (conj _ (conj _ _))); simpl.

Lemma wf_ext s s' :
  notes s' = notes s → selectedCell s' = selectedCell s →
  history s' = history s → wf s → wf s'.
Proof. unfold wf. by intros -> -> ->. Qed.

Lemma note_at_empty r c : note_at empty_notes r c = [].
Proof.
  unfold get2, empty_notes. destruct (decide (r < 9)) as [Hr|Hr].
  - rewrite lookup_replicate_2 by done. cbn [mbind option_bind].
    destruct (decide (c < 9)) as [Hc|Hc]; [by rewrite lookup_replicate_2|].
    by rewrite lookup_ge_None_2 by (rewrite length_replicate; lia).
  - by rewrite lookup_ge_None_2 by (rewrite length_replicate; lia).
Qed.

Lemma opened_wf s0 : opened s0 → wf s0.
Proof.
  intros (lvl & rnd & sprev & Hsel & Hstart). unfold startGame in Hstart.
  destruct (generate lvl rnd) as [data|]; simplify_eq/=.
  wf_split; [apply shape9_replicate| |done|constructor].
  intros r c. rewrite note_at_empty. constructor.
Qed.

Lemma written_wf r c num s :
  selectedCell s = Some (r, c) → wf s → wf (written r c num s).
Proof.
  intros Hsel (Hshape & Hnd & Hrange & Hhist). wf_split; try done.
  rewrite Hsel in Hrange. apply Forall_app.
  split; [|by apply Forall_singleton].
  case_match; [|done]. destruct (history s); [done|]. by inversion Hhist.
Qed.

Lemma toggleNoteValue_wf r c num s : wf s → wf (toggleNoteValue r c num s).
Proof.
  intros (Hshape & Hnd & Hrange & Hhist).
  wf_split; try done; [by apply shape9_set|].
  intros r' c'.
  destruct (get2_set2_cases [] (notes s) r c
    (if bool_decide (num ∈ note_at (notes s) r c)
     then remove_first num (note_at (notes s) r c)
     else note_at (notes s) r c ++ [num]) r' c') as [[-> _]| ->]; [|done].
  case_bool_decide as Hin; [by apply NoDup_remove_first|].
  apply NoDup_app. split_and!; [done| |by apply NoDup_singleton].
  intros x Hx ->%list_elem_of_singleton. done.
Qed.

Lemma foldl_removeNote_shape num cells : ∀ ns,
  shape9 ns → shape9 (foldl (removeNote num) ns cells).
Proof.
  induction cells as [|p cells IH]; intros ns Hs; [done|]. simpl.
  by apply IH, shape9_set.
Qed.

Lemma clearNotesForMove_wf r c num s : wf s → wf (clearNotesForMove r c num s).
Proof.
  intros (Hshape & Hnd & Hrange & Hhist).
  wf_split; try done.
  - by apply foldl_removeNote_shape, shape9_set.
  - intros r' c'.
    assert (NoDup (note_at (set_note (notes s) r c []) r' c')) as Hnd'.
    { destruct (get2_set2_cases [] (notes s) r c [] r' c') as [[-> _]| ->];
        [constructor|done]. }
    rewrite foldl_removeNote_at by done.
    case_decide; [by apply NoDup_remove_first|done].
Qed.

Lemma inputNumber_wf num s : wf s → wf (inputNumber num s).
Proof.
  intros Hwf. destruct (inputNumber_outcome num s) as
    [ |r c|r c ? Hsel|r c ? Hsel|r c ? Hsel]; [done| | | |].
  - by apply toggleNoteValue_wf.
  - by apply written_wf.
  - destruct (handleMistake_keeps r c (written r c num s))
      as (_ & _ & _ & Hn & Hs & Hh & _).
    eapply wf_ext; [done..|]. by apply written_wf.
  - apply clearNotesForMove_wf.
    destruct (checkCompletion_keeps (written r c num s))
      as (_ & _ & _ & Hn & Hs & Hh & _).
    eapply wf_ext; [done..|]. by apply written_wf.
Qed.

Lemma undo_wf s : wf s → wf (undo s).
Proof.
  intros Hwf. unfold undo. destruct (isGameOver s) eqn:Hover; [done|].
  destruct (last (history s)) as [a|] eqn:Hlast; [|done].
  apply last_Some in Hlast as [h Hh].
  destruct Hwf as (Hshape & Hnd & Hrange & Hhist).
  rewrite Hh in Hhist. apply Forall_app in Hhist as [Hhist Ha].
  rewrite Forall_singleton in Ha.
  unfold selectCell. rewrite Hh, removelast_last.
  destruct (a_type a); simpl; rewrite Hover; by wf_split.
Qed.

Lemma useHint_wf s : wf s → wf (useHint s).
Proof.
  intros Hwf. unfold useHint. repeat case_match; try done.
  match goal with |- wf (checkCompletion ?t) =>
    destruct (checkCompletion_keeps t) as (_ & _ & _ & Hn & Hs & Hh & _)
  end.
  by eapply wf_ext.
Qed.

Lemma step_wf s op : legal op → wf s → wf (step s op).
Proof.
  intros Hlegal Hwf. destruct op; simpl.
  - unfold selectCell. case_match; [done|].
    destruct Hwf as (? & ? & ? & ?). by wf_split.
  - by apply inputNumber_wf.
  - unfold erase. repeat case_match; try done. by apply inputNumber_wf.
  - by apply undo_wf.
  - by eapply wf_ext.
  - by apply useHint_wf.
  - unfold pauseGame. case_match; [done|]. by eapply wf_ext.
  - by eapply wf_ext.
  - unfold tick. case_match; [|done]. by eapply wf_ext.
Qed.

Lemma reachable_wf s0 s : opened s0 → reachable s0 s → wf s.
Proof.
  intros Hopen. induction 1 as [|s op _ IH Hlegal]; [by apply opened_wf|].
  by apply step_wf.
Qed.

Lemma reachable_run s0 s ops :
  Forall legal ops → reachable s0 s → reachable s0 (run ops s).
Proof.
  intros Hops. revert s. induction Hops as [|op ops Hop _ IH]; intros s Hs;
    [done|].
  simpl. apply IH. by constructor.
Qed.

End Invariants.

(** ** Notes after a correct placement *)

Module NoteClaims.
Import Session NoteFacts SessionFacts Invariants Specs.

(** The notes [clearNotesForMove] leaves, cell by cell. *)
Lemma clearNotesForMove_at r c num s r' c' :
  shape9 (notes s) → r < 9 → c < 9 →
  NoDup (note_at (notes s) r' c') →
  note_at (notes (clearNotesForMove r c num s)) r' c'
  = if decide ((r', c') = (r, c)) then []
    else if decide ((r', c') ∈ unit_cells r c)
         then remove_first num (note_at (notes s) r' c')
         else note_at (notes s) r' c'.
Proof.
  intros Hshape Hr Hc Hnd. simpl.
  destruct (decide ((r', c') = (r, c))) as [[= -> ->]|Hne].
  - rewrite foldl_removeNote_at; rewrite cell_set_eq by done;
      [by case_decide|constructor].
  - rewrite foldl_removeNote_at; rewrite cell_set_ne by done; done.
Qed.

(** C5. In a session, a normal-mode move that places the digit [D] of the
    solution on a non-fixed cell [(r, c)] leaves the note set of [(r, c)]
    empty and [D] out of the note sets of all cells of its row, column and
    box; the other digits of those note sets stay, and the notes of the
    cells outside row, column and box are unchanged. *)
Theorem correct_move_clears_notes s0 s r c D :
  opened s0 → reachable s0 s →
  isGameOver s = false → selectedCell s = Some (r, c) →
  isNoteMode s = false → cell (initial s) r c = 0%Z →
  D ≠ 0%Z → D ≠ cell (grid s) r c → D = cell (solution s) r c →
  let s' := inputNumber D s in
  note_at (notes s') r c = []
  ∧ (∀ r' c', r' < 9 → c' < 9 → same_unit r c r' c' →
       D ∉ note_at (notes s') r' c')
  ∧ (∀ r' c' d, r' < 9 → c' < 9 → (r', c') ≠ (r, c) → d ≠ D →
       d ∈ note_at (notes s') r' c' ↔ d ∈ note_at (notes s) r' c')
  ∧ (∀ r' c', r' < 9 → c' < 9 → ¬ same_unit r c r' c' →
       note_at (notes s') r' c' = note_at (notes s) r' c').
Proof.
  intros Hopen Hreach Hover Hsel Hmode Hfix Hz Hprev Hsol. simpl.
  destruct (reachable_wf s0 s Hopen Hreach) as (Hshape & Hnd & Hrange & _).
  rewrite Hsel in Hrange. destruct Hrange as [Hr Hc].
  rewrite (inputNumber_move s r c D) by done.
  rewrite decide_False, decide_True by done.
  set (t := checkCompletion (written r c D s)).
  assert (notes t = notes s) as Hnotes.
  { subst t. by destruct (checkCompletion_keeps (written r c D s))
      as (_ & _ & _ & -> & _). }
  assert (∀ r' c', note_at (notes (clearNotesForMove r c D t)) r' c'
    = if decide ((r', c') = (r, c)) then []
      else if decide ((r', c') ∈ unit_cells r c)
           then remove_first D (note_at (notes s) r' c')
           else note_at (notes s) r' c') as Hat.
  { intros r' c'. rewrite clearNotesForMove_at; rewrite ?Hnotes; done. }
  split_and!.
  - rewrite Hat. by rewrite decide_True.
  - intros r' c' Hr' Hc' Hunit. rewrite Hat.
    destruct (decide ((r', c') = (r, c))); [apply not_elem_of_nil|].
    rewrite decide_True by (by apply unit_cells_spec).
    by apply remove_first_absent.
  - intros r' c' d Hr' Hc' Hne Hd. rewrite Hat. rewrite decide_False by done.
    case_decide; [|done]. by apply elem_of_remove_first_ne.
  - intros r' c' Hr' Hc' Hunit. rewrite Hat.
    destruct (decide ((r', c') = (r, c))) as [[= -> ->]|Hne].
    { exfalso. apply Hunit. by left. }
    rewrite decide_False; [done|].
    intros Hin. apply unit_cells_spec in Hin as (_ & _ & ?); done.
Qed.

Lemma correct_move_clears_notes_witness :
  let s := run [SelectCell 0 1; ToggleNotes; InputNumber 1; InputNumber 4;
                ToggleNotes; SelectCell 0 0] sample_start in
  let s' := inputNumber 1 s in
  note_at (notes s') 0 0 = []
  ∧ (∀ r' c', r' < 9 → c' < 9 → same_unit 0 0 r' c' →
       1%Z ∉ note_at (notes s') r' c')
  ∧ (∀ r' c' d, r' < 9 → c' < 9 → (r', c') ≠ (0, 0) → d ≠ 1%Z →
       d ∈ note_at (notes s') r' c' ↔ d ∈ note_at (notes s) r' c')
  ∧ (∀ r' c', r' < 9 → c' < 9 → ¬ same_unit 0 0 r' c' →
       note_at (notes s') r' c' = note_at (notes s) r' c').
Proof.
  apply (correct_move_clears_notes sample_start
           (run [SelectCell 0 1; ToggleNotes; InputNumber 1; InputNumber 4;
                 ToggleNotes; SelectCell 0 0] sample_start) 0 0 1%Z).
  - apply SampleFacts.sample_opened.
  - apply reachable_run; [|constructor].
    repeat constructor; simpl; lia.
  - by vm_compute.
  - by vm_compute.
  - by vm_compute.
  - by vm_compute.
  - by vm_compute.
  - by vm_compute.
  - by vm_compute.
Defined.

End NoteClaims.

(** ** Which cells carry notes *)

Module NoteInvariant.
Import Generator GeneratorFacts Session NoteFacts SessionFacts Invariants Specs.

(** C9, as stated, fails: the note-mode branch of [inputNumber] only asks
    that the selected cell is not fixed.  After the right digit 1 has been
    placed at (0,0), note mode puts the note 5 on that filled cell. *)
Lemma note_on_filled_cell :
  let s := run [SelectCell 0 0; InputNumber 1; ToggleNotes; InputNumber 5]
             sample_start in
  opened sample_start ∧ reachable sample_start s
  ∧ cell (grid s) 0 0 = 1%Z ∧ note_at (notes s) 0 0 = [5%Z].
Proof.
  split_and!; [apply SampleFacts.sample_opened| |by vm_compute..].
  apply reachable_run; [|constructor]. repeat constructor; simpl; lia.
Qed.

(** What the invariant needs to know about the dealt puzzle. *)
Lemma opened_dealt s0 :
  opened s0 →
  notes s0 = empty_notes
  ∧ ∀ r c, cell (initial s0) r c ≠ 0%Z →
           cell (solution s0) r c = cell (initial s0) r c.
Proof.
  intros (lvl & rnd & sprev & _ & Hstart). unfold startGame in Hstart.
  destruct (generate lvl rnd) as [data|] eqn:Hgen; simplify_eq/=.
  split; [done|]. intros r c Hnz.
  by destruct (generate_subset _ _ _ Hgen r c) as [->|].
Qed.

Lemma dealt_inv_ext s0 s s' :
  solution s' = solution s → initial s' = initial s → notes s' = notes s →
  dealt_inv s0 s → dealt_inv s0 s'.
Proof. unfold dealt_inv. by intros -> -> ->. Qed.

Lemma foldl_removeNote_empty num cells ns r c :
  note_at ns r c = [] → note_at (foldl (removeNote num) ns cells) r c = [].
Proof.
  intros Hnil. rewrite foldl_removeNote_at; rewrite Hnil;
    [by case_decide|constructor].
Qed.

Lemma inputNumber_dealt_inv s0 num s :
  dealt_inv s0 s → dealt_inv s0 (inputNumber num s).
Proof.
  intros Hall. pose proof Hall as [Hsol Hinv].
  destruct (inputNumber_outcome num s) as
    [ |r c ? ? Hfree|r c|r c|r c]; [done| | | |].
  - split; [done|]. intros r' c' Hdealt.
    destruct (Hinv r' c' Hdealt) as [Hfix Hnil]. split; [done|]. simpl.
    rewrite cell_set_ne; [done|]. intros [= <- <-]. done.
  - by apply (dealt_inv_ext s0 s).
  - destruct (handleMistake_keeps r c (written r c num s))
      as (_ & ? & ? & ? & _).
    by apply (dealt_inv_ext s0 s).
  - destruct (checkCompletion_keeps (written r c num s))
      as (_ & Hs & Hi & Hn & _).
    split; [by rewrite <- Hsol|]. intros r' c' Hdealt.
    destruct (Hinv r' c' Hdealt) as [Hfix Hnil].
    change (initial (clearNotesForMove r c num ?t)) with (initial t).
    split; [by rewrite Hi|].
    unfold clearNotesForMove. cbn [notes with_notes].
    apply foldl_removeNote_empty. rewrite Hn. cbn [notes written with_grid].
    unfold addToHistory. cbn [notes with_history].
    by destruct (get2_set2_cases [] (notes s) r c [] r' c') as [[-> _]| ->].
Qed.

Lemma useHint_dealt_inv s0 s :
  (∀ r c, cell (initial s0) r c ≠ 0%Z →
          cell (solution s0) r c = cell (initial s0) r c) →
  dealt_inv s0 s → dealt_inv s0 (useHint s).
Proof.
  intros Hstart [Hsol Hinv]. unfold useHint.
  destruct (isGameOver s); [done|]. destruct (score s <? HINT_COST)%Z; [done|].
  destruct (selectedCell s) as [[r c]|]; [|done].
  destruct (negb (cell (grid s) r c =? 0)%Z); [done|].
  match goal with |- dealt_inv _ (checkCompletion ?t) =>
    set (t0 := t); destruct (checkCompletion_keeps t0) as (_ & Hs & Hi & Hn & _)
  end.
  split; [by rewrite Hs|]. intros r' c' Hdealt.
  destruct (Hinv r' c' Hdealt) as [Hfix Hnil]. rewrite Hi, Hn.
  subst t0. simpl. split; [|done].
  destruct (get2_set2_cases 0%Z (initial s) r c (cell (solution s) r c) r' c')
    as [[-> [= -> ->]]| ->]; [|done].
  rewrite Hsol, (Hstart r c Hdealt). done.
Qed.

Lemma step_dealt_inv s0 s op :
  (∀ r c, cell (initial s0) r c ≠ 0%Z →
          cell (solution s0) r c = cell (initial s0) r c) →
  dealt_inv s0 s → dealt_inv s0 (step s op).
Proof.
  intros Hstart Hinv. destruct op; simpl.
  - unfold selectCell. case_match; [done|]. by apply (dealt_inv_ext s0 s).
  - by apply inputNumber_dealt_inv.
  - unfold erase. repeat case_match; try done. by apply inputNumber_dealt_inv.
  - unfold undo, selectCell. repeat case_match; simplify_eq/=; try done;
      by apply (dealt_inv_ext s0 s).
  - by apply (dealt_inv_ext s0 s).
  - by apply useHint_dealt_inv.
  - unfold pauseGame. case_match; [done|]. by apply (dealt_inv_ext s0 s).
  - by apply (dealt_inv_ext s0 s).
  - unfold tick. case_match; [|done]. by apply (dealt_inv_ext s0 s).
Qed.

(** C9, amended. Notes exist only for cells that were not dealt filled: in
    every state of a session, every cell that is nonzero in the puzzle as
    dealt has an empty note set.  (Note mode accepts any selected cell that
    is not fixed, whether or not the player has filled it.) *)
Theorem dealt_cells_have_no_notes s0 s r c :
  opened s0 → reachable s0 s →
  cell (initial s0) r c ≠ 0%Z → note_at (notes s) r c = [].
Proof.
  intros Hopen Hreach Hdealt.
  destruct (opened_dealt s0 Hopen) as [Hnotes Hstart].
  assert (dealt_inv s0 s) as [_ Hinv]; [|by apply Hinv].
  clear r c Hdealt. induction Hreach as [|s op _ IH _].
  - split; [done|]. intros r c Hdealt. split; [done|].
    rewrite Hnotes. apply note_at_empty.
  - by apply step_dealt_inv.
Qed.

Lemma dealt_cells_have_no_notes_witness :
  note_at
    (notes (run [SelectCell 0 0; InputNumber 1; ToggleNotes; InputNumber 5;
                 SelectCell 8 8; InputNumber 5] sample_start)) 8 8 = [].
Proof.
  apply (dealt_cells_have_no_notes sample_start).
  - apply SampleFacts.sample_opened.
  - apply reachable_run; [|constructor]. repeat constructor; simpl; lia.
  - by vm_compute.
Defined.

End NoteInvariant.

(** ** Hints *)

Module HintClaims.
Import Session SessionFacts Invariants Specs.

(** A hint that passes the three checks writes the solution digit into
    [grid] and [initial], takes [HINT_COST] off the score and hands over to
    [checkCompletion]. *)
Lemma useHint_applies s r c :
  isGameOver s = false → (HINT_COST ≤ score s)%Z →
  selectedCell s = Some (r, c) → cell (grid s) r c = 0%Z →
  useHint s
  = checkCompletion
      (with_initial (set_cell (initial s) r c (cell (solution s) r c))
         (with_grid (set_cell (grid s) r c (cell (solution s) r c))
            (with_score (score s - HINT_COST) s))).
Proof.
  intros Hover Hscore Hsel Hempty. unfold useHint.
  rewrite Hover, Hsel, Hempty. rewrite (proj2 (Z.ltb_ge _ _)) by done. done.
Qed.

Lemma useHint_effect s r c :
  isGameOver s = false → (HINT_COST ≤ score s)%Z →
  selectedCell s = Some (r, c) → cell (grid s) r c = 0%Z →
  shape9 (grid s) → shape9 (initial s) → r < 9 → c < 9 →
  cell (grid (useHint s)) r c = cell (solution s) r c
  ∧ cell (initial (useHint s)) r c = cell (solution s) r c
  ∧ score (useHint s) = (score s - HINT_COST + 10)%Z.
Proof.
  intros Hover Hscore Hsel Hempty Hg Hi Hr Hc.
  rewrite (useHint_applies s r c) by done.
  match goal with |- context [checkCompletion ?t] =>
    set (t0 := t); destruct (checkCompletion_keeps t0) as (-> & _ & -> & _);
    destruct (checkCompletion_keeps t0) as (_ & _ & _ & _ & _ & _ & _ & _ & ->)
  end.
  subst t0. simpl. by rewrite !cell_set_eq.
Qed.

(** C4, failing input. After five right digits the score is 50; with the
    empty cell (0,5) selected, [useHint()] fills and fixes the cell, but the
    score afterwards is 10 and not 50 - 50 = 0: [checkCompletion], which
    [useHint] calls last, adds its 10 points. *)
Theorem hint_costs_forty :
  let s := run [SelectCell 0 0; InputNumber 1; SelectCell 0 1; InputNumber 2;
                SelectCell 0 2; InputNumber 3; SelectCell 0 3; InputNumber 5;
                SelectCell 0 4; InputNumber 4; SelectCell 0 5] sample_start in
  isGameOver s = false ∧ score s = 50%Z ∧ selectedCell s = Some (0, 5)
  ∧ cell (grid s) 0 5 = 0%Z
  ∧ cell (grid (useHint s)) 0 5 = cell (solution s) 0 5
  ∧ cell (initial (useHint s)) 0 5 = cell (solution s) 0 5
  ∧ score (useHint s) = 10%Z.
Proof. by vm_compute. Qed.

End HintClaims.

(** ** The undo history *)

Module HistoryClaims.
Import Session SessionFacts Invariants Specs.

Lemma addToHistory_length a s :
  length (history (addToHistory a s))
  = if 20 <? length (history s) then length (history s)
    else S (length (history s)).
Proof.
  unfold addToHistory. simpl. rewrite length_app. simpl.
  destruct (Nat.ltb_spec 20 (length (history s))) as [Hlt|Hle]; [|lia].
  destruct (history s); simpl in *; lia.
Qed.

(** Eviction happens on push and takes the oldest entry; the rest keeps its
    order. *)
Lemma addToHistory_evicts a s :
  20 < length (history s) →
  history (addToHistory a s) = tail (history s) ++ [a].
Proof.
  intros Hlt. unfold addToHistory. simpl.
  by rewrite (proj2 (Nat.ltb_lt _ _)).
Qed.

Lemma history_step_bound s op :
  length (history s) ≤ 21 → length (history (step s op)) ≤ 21.
Proof.
  intros Hle.
  assert (∀ r c num, length (history (written r c num s)) ≤ 21) as Hw.
  { intros r c num. unfold written. cbn [history with_grid].
    rewrite addToHistory_length.
    destruct (Nat.ltb_spec 20 (length (history s))); lia. }
  assert (∀ num, length (history (inputNumber num s)) ≤ 21) as Hin.
  { intros num. destruct (inputNumber_outcome num s) as [ |r c|r c|r c|r c];
      [done|done|apply Hw| |].
    - destruct (handleMistake_keeps r c (written r c num s))
        as (_ & _ & _ & _ & _ & -> & _). apply Hw.
    - change (history (clearNotesForMove r c num ?t)) with (history t).
      destruct (checkCompletion_keeps (written r c num s))
        as (_ & _ & _ & _ & _ & -> & _). apply Hw. }
  destruct op; simpl; try done.
  - unfold selectCell. by case_match.
  - unfold erase. repeat case_match; done.
  - unfold undo, selectCell. destruct (isGameOver s) eqn:Hover; [done|].
    destruct (last (history s)) as [a|] eqn:Hlast; [|done].
    apply last_Some in Hlast as [h Hh]. rewrite Hh in *.
    rewrite length_app in Hle. simpl in Hle.
    destruct (a_type a); simpl; rewrite Hover; simpl;
      rewrite removelast_last; lia.
  - unfold useHint. repeat case_match; try done.
    match goal with |- context [checkCompletion ?t] =>
      by destruct (checkCompletion_keeps t) as (_ & _ & _ & _ & _ & -> & _)
    end.
  - unfold pauseGame. by case_match.
  - unfold tick. by case_match.
Qed.

(** The history of a session never holds more than 21 entries. *)
Lemma history_bound s0 s :
  opened s0 → reachable s0 s → length (history s) ≤ 21.
Proof.
  intros (lvl & rnd & sprev & _ & Hstart). unfold startGame in Hstart.
  destruct (Generator.generate lvl rnd) as [data|]; simplify_eq/=.
  induction 1 as [|s op _ IH _]; [simpl; lia|]. by apply history_step_bound.
Qed.

(** C6, failing input. Select the empty cell (0,0) and alternate its right
    digit 1 with the eraser, 21 moves in all: [addToHistory] only shifts when
    the length is already above 20, so the history then holds 21 entries. *)
Theorem history_reaches_twenty_one :
  let ops := SelectCell 0 0
             :: concat (replicate 10 [InputNumber 1; Erase]) ++ [InputNumber 1] in
  let s := run ops sample_start in
  reachable sample_start s ∧ isGameOver s = false
  ∧ length (history s) = 21.
Proof.
  split_and!; [|by vm_compute..].
  apply reachable_run; [|constructor]. simpl. repeat constructor; lia.
Qed.

End HistoryClaims.

(** ** Fixed cells *)

Module FixedCellClaims.
Import Session SessionFacts Invariants Specs.

(** [inputNumber] and [erase] never change the value of a fixed cell. *)
Lemma inputNumber_keeps_fixed num s r c :
  cell (initial s) r c ≠ 0%Z →
  cell (grid (inputNumber num s)) r c = cell (grid s) r c.
Proof.
  intros Hfixed.
  assert (∀ r0 c0, cell (initial s) r0 c0 = 0%Z →
    cell (grid (written r0 c0 num s)) r c = cell (grid s) r c) as Hw.
  { intros r0 c0 Hfree. simpl. apply cell_set_ne. intros [= -> ->]. done. }
  destruct (inputNumber_outcome num s) as [ |r0 c0|r0 c0|r0 c0|r0 c0];
    [done|done|by apply Hw| |].
  - destruct (handleMistake_keeps r0 c0 (written r0 c0 num s)) as (-> & _).
    by apply Hw.
  - change (grid (clearNotesForMove r0 c0 num ?t)) with (grid t).
    destruct (checkCompletion_keeps (written r0 c0 num s)) as (-> & _).
    by apply Hw.
Qed.

Lemma erase_keeps_fixed s r c :
  cell (initial s) r c ≠ 0%Z → cell (grid (erase s)) r c = cell (grid s) r c.
Proof.
  intros Hfixed. unfold erase. repeat case_match; try done.
  by apply inputNumber_keeps_fixed.
Qed.

(** C7, failing input. Five right digits bring the score to 50; the last
    of them, at (0,4), is erased and given back by a hint, which makes the
    cell fixed.  The history still holds the two entries of that cell:
    the first [undo()] writes 4 over the 4, the second one writes 0 into the
    fixed cell. *)
Theorem undo_empties_hinted_cell :
  let s := run [SelectCell 0 0; InputNumber 1; SelectCell 0 1; InputNumber 2;
                SelectCell 0 2; InputNumber 3; SelectCell 0 3; InputNumber 5;
                SelectCell 0 4; InputNumber 4; Erase; UseHint; Undo]
             sample_start in
  reachable sample_start s ∧ isGameOver s = false
  ∧ cell (initial s) 0 4 = 4%Z ∧ cell (grid s) 0 4 = 4%Z
  ∧ cell (initial (undo s)) 0 4 = 4%Z ∧ cell (grid (undo s)) 0 4 = 0%Z.
Proof.
  split_and!; [|by vm_compute..].
  apply reachable_run; [|constructor]. repeat constructor; simpl; lia.
Qed.

End FixedCellClaims.

(** ** After the end of the session *)

Module GameOverClaims.
Import Session SessionFacts Invariants Specs.

(** The handlers that test [isGameOver], and the timer, leave a finished
    session as it is. *)
Lemma game_over_frozen s op :
  isGameOver s = true → op ≠ ToggleNotes → op ≠ ResumeFromPause →
  step s op = s.
Proof.
  intros Hover Hn Hr. destruct op; try done; simpl.
  - unfold selectCell. by rewrite Hover.
  - unfold inputNumber. by rewrite Hover.
  - unfold erase. by rewrite Hover.
  - unfold undo. by rewrite Hover.
  - unfold useHint. by rewrite Hover.
  - unfold pauseGame. by rewrite Hover.
  - unfold tick. rewrite Hover. by rewrite andb_false_r.
Qed.

(** The move that wins the session: [checkCompletion] sets the flag through
    [gameOver(true)] at a score of 290 and then adds 10 points. *)
Lemma winning_move_scores_after_flag :
  let s := run (removelast winning_ops) sample_start in
  let t := written 3 2 8 s in
  isGameOver s = false ∧ selectedCell s = Some (3, 2)
  ∧ isGameOver (gameOver true t) = true ∧ score (gameOver true t) = 290%Z
  ∧ inputNumber 8 s = clearNotesForMove 3 2 8 (checkCompletion t)
  ∧ isGameOver (inputNumber 8 s) = true ∧ score (inputNumber 8 s) = 300%Z.
Proof. by vm_compute. Qed.

(** C8, failing input. Three wrong digits at (0,0) end the session;
    [toggleNotes()], which does not test [isGameOver], still flips
    [isNoteMode] afterwards. *)
Theorem note_mode_toggles_after_game_over :
  let s := run [SelectCell 0 0; InputNumber 2; InputNumber 3; InputNumber 4]
             sample_start in
  reachable sample_start s ∧ isGameOver s = true
  ∧ isNoteMode s = false ∧ isNoteMode (step s ToggleNotes) = true
  ∧ step s ToggleNotes ≠ s.
Proof.
  split_and!; [|by vm_compute..|].
  - apply reachable_run; [|constructor]. repeat constructor; simpl; lia.
  - intros Heq. apply (f_equal isNoteMode) in Heq. by vm_compute in Heq.
Qed.

End GameOverClaims.

(** ** Difficulty arguments outside the table *)

Module FallbackClaims.
Import Generator GeneratorFacts Samples Specs.

(** A difficulty argument that names no property of [DIFFICULTY] at all
    removes 30 cells. *)
Lemma generate_fallback difficulty rnd p :
  DIFFICULTY difficulty = None → generate difficulty rnd = Some p →
  count_nonzero (p_initial p) = 51.
Proof.
  intros Hnone Hgen.
  destruct (generate_removes difficulty 30 rnd p) as (_ & -> & _);
    [|lia|done..]. unfold attempts. by rewrite Hnone.
Qed.

(** C10, failing input. ["toString"] is none of the four tiers, but
    [DIFFICULTY["toString"]] is the function inherited from
    [Object.prototype]: it is truthy and its [removed] is [undefined], the
    loop test [undefined > 0] fails at once and [generate] returns the
    full solution as [initial], 81 nonzero cells instead of 51. *)
Theorem inherited_name_removes_nothing :
  ∃ p, generate "toString" sample_random = Some p
       ∧ attempts "toString" = None
       ∧ p_initial p = p_solution p
       ∧ count_nonzero (p_initial p) = 81.
Proof.
  destruct (generate "toString" sample_random) as [p|] eqn:E;
    [|by vm_compute in E].
  exists p. vm_compute in E. injection E as <-. by vm_compute.
Qed.

End FallbackClaims.

(** * Further properties of the generator *)

Module SolutionFacts.
Import Generator GeneratorFacts CheckerFacts SearchFacts Samples Specs
  BoardNotions.

Lemma same_unit_sym r c r' c' : same_unit r c r' c' → same_unit r' c' r c.
Proof. unfold same_unit. intros [->|[->|[-> ->]]]; auto. Qed.

Lemma isValid_true_iff g row col num :
  row < 9 → col < 9 →
  isValid g row col num = true
  ↔ ∀ r c, r < 9 → c < 9 → same_unit row col r c → cell g r c ≠ num.
Proof.
  intros Hrow Hcol. rewrite isValid_unit_cells, forallb_forall. split.
  - intros Hall r c Hr Hc Hunit. specialize (Hall (r, c)).
    cbn beta iota in Hall. apply Z.eqb_neq, negb_true_iff, Hall.
    by apply list_elem_of_In, unit_cells_spec.
  - intros Hall [r c] Hin.
    apply list_elem_of_In, unit_cells_spec in Hin as (? & ? & ?); [|done..].
    apply negb_true_iff, Z.eqb_neq. by apply Hall.
Qed.

(** A digit that passes [isValid] keeps the board free of repetitions. *)
Lemma set_consistent g row col num :
  shape9 g → row < 9 → col < 9 → consistent g →
  isValid g row col num = true → consistent (set_cell g row col num).
Proof.
  intros Hs Hrow Hcol Hcons Hv r c r' c' Hr Hc Hr' Hc' Hunit Hne Hnz.
  rewrite isValid_true_iff in Hv by done.
  destruct (decide ((row, col) = (r, c))) as [[= <- <-]|Hn1].
  - rewrite cell_set_eq by done. rewrite cell_set_ne by done. by apply Hv.
  - rewrite (cell_set_ne _ _ _ _ _ r c) in * by done.
    destruct (decide ((row, col) = (r', c'))) as [[= <- <-]|Hn2].
    + rewrite cell_set_eq by done. intros Heq.
      apply (Hv r c); [done..|by apply same_unit_sym|done].
    + rewrite cell_set_ne by done. by apply Hcons.
Qed.

Lemma keeps_set g row col num :
  cell g row col = 0%Z → keeps g (set_cell g row col num).
Proof.
  intros Hz r c Hnz. apply cell_set_ne. intros [= -> ->]. done.
Qed.

Lemma digits_ok_set g row col num :
  (0 ≤ num ≤ 9)%Z → digits_ok g → digits_ok (set_cell g row col num).
Proof.
  intros Hnum Hd r c Hr Hc.
  destruct (NoteFacts.get2_set2_cases 0%Z g row col num r c) as [[-> _]| ->];
    auto.
Qed.

Lemma board_ok_set g row col num :
  row < 9 → col < 9 → (1 ≤ num ≤ 9)%Z → board_ok g →
  isValid g row col num = true → board_ok (set_cell g row col num).
Proof.
  intros Hrow Hcol Hnum (Hs & Hc & Hd) Hv. split_and!.
  - by apply shape9_set.
  - by apply set_consistent.
  - apply digits_ok_set; [lia|done].
Qed.

Lemma full_board_solved g :
  board_ok g → first_empty g = None → Specs.solved g.
Proof.
  intros (Hs & Hc & Hd) Hfull.
  pose proof (first_empty_None g Hfull) as Hnz. split_and!; [done| |].
  - intros r c Hr Hc'. specialize (Hd r c Hr Hc'). specialize (Hnz r c Hr Hc').
    lia.
  - intros r c r' c' Hr Hc' Hr' Hc'' Hunit Hne. apply Hc; auto.
Qed.

Lemma try_nums_sound rec row col :
  row < 9 → col < 9 →
  (∀ g k res, rec g k = Some res → fill_post g res) →
  (∀ g k g' k', rec g k = Some (true, g', k') → board_ok g →
                Specs.solved g' ∧ keeps g g') →
  ∀ nums g k g' k',
    Forall (λ d, (1 ≤ d ≤ 9)%Z) nums → cell g row col = 0%Z → board_ok g →
    try_nums rec row col nums g k = Some (true, g', k') →
    Specs.solved g' ∧ keeps g g'.
Proof.
  intros Hrow Hcol Hpost Hrec nums.
  induction nums as [|num nums IH]; intros g k g' k' Hnums Hz Hok Hrun;
    [done|].
  apply Forall_cons in Hnums as [Hnum Hnums]. simpl in Hrun.
  destruct (isValid g row col num) eqn:Hv; [|by eapply IH].
  destruct (rec (set_cell g row col num) k) as [[[[] g1] k1]|] eqn:E;
    simplify_eq/=.
  - destruct (Hrec _ _ _ _ E) as [Hsolved Hkeeps]; [by apply board_ok_set|].
    split; [done|]. intros r c Hnz. rewrite Hkeeps.
    + by apply keeps_set.
    + by rewrite keeps_set.
  - apply Hpost in E as [_ ->].
    rewrite set_cell_set, (set_cell_same 0%Z g row col 0%Z Hz) in Hrun.
    by eapply IH.
Qed.

Lemma fillGrid_sound_aux srt :
  (∀ k, Forall (λ d, (1 ≤ d ≤ 9)%Z) (srt k)) →
  ∀ fuel g k g' k',
    fillGrid fuel srt g k = Some (true, g', k') → board_ok g →
    Specs.solved g' ∧ keeps g g'.
Proof.
  intros Hsrt fuel. induction fuel as [|fuel IH]; intros g k g' k' Hrun Hok;
    [done|].
  simpl in Hrun. destruct (first_empty g) as [[row col]|] eqn:E.
  - apply first_empty_Some in E as (Hr & Hc & Hz).
    eapply (try_nums_sound _ row col Hr Hc); [| |apply Hsrt|done..].
    + intros ???. apply fillGrid_post.
    + apply IH.
  - simplify_eq. split; [by apply full_board_solved|]. by intros r c _.
Qed.

Lemma isSafeBox_spec g row col num :
  isSafeBox g row col num = true
  ↔ ∀ i j, i < 3 → j < 3 → cell g (row + i) (col + j) ≠ num.
Proof.
  unfold isSafeBox. rewrite forallb_forall. split.
  - intros Hall i j Hi Hj. specialize (Hall i).
    rewrite forallb_forall in Hall.
    apply Z.eqb_neq, negb_true_iff, Hall; apply list_elem_of_In, elem_of_seq;
      lia.
  - intros Hall i Hi%list_elem_of_In%elem_of_seq. apply forallb_forall.
    intros j Hj%list_elem_of_In%elem_of_seq.
    apply negb_true_iff, Z.eqb_neq, Hall; lia.
Qed.

(** The digit the [do ... while] loop of [fillBox] leaves with. *)
Lemma draw_digit_spec g row col ds num rest :
  draw_digit g row col ds = Some (num, rest) →
  (1 ≤ num ≤ 9)%Z ∧ isSafeBox g row col num = true
  ∧ length rest < length ds.
Proof.
  induction ds as [|d ds IH]; [done|]. cbn [draw_digit].
  destruct (isSafeBox g row col (Z.of_nat (d mod 9) + 1)) eqn:Hsafe.
  - intros [= <- <-]. pose proof (Nat.mod_upper_bound d 9 ltac:(lia)).
    split; [lia|split; [done|simpl; lia]].
  - intros Hrun. destruct (IH Hrun) as (? & ? & ?).
    split; [done|split; [done|simpl; lia]].
Qed.

Lemma fillBox_from_distinct row col :
  row ≤ 6 → col ≤ 6 →
  ∀ offs done g ds g' ds',
    NoDup offs → (∀ o, o ∈ offs → o ∉ done) →
    (∀ o, o ∈ offs ∨ o ∈ done → o.1 < 3 ∧ o.2 < 3) →
    shape9 g → box_distinct g row col done →
    fillBox_from offs g row col ds = Some (g', ds') →
    shape9 g'
    ∧ box_distinct g' row col (offs ++ done)
    ∧ ∀ r c, (∀ o, o ∈ offs → (r, c) ≠ (row + o.1, col + o.2)) →
             cell g' r c = cell g r c.
Proof.
  intros Hrow Hcol offs.
  induction offs as [|[i j] offs IH];
    intros done g ds g' ds' Hnd Hfresh Hlt Hs Hbox Hrun.
  { simplify_eq/=. done. }
  simpl in Hrun.
  destruct (draw_digit g row col ds) as [[num rest]|] eqn:Hdraw; [|done].
  apply draw_digit_spec in Hdraw as (Hnum & Hsafe & _).
  rewrite isSafeBox_spec in Hsafe.
  apply NoDup_cons in Hnd as [Hnotin Hnd].
  destruct (Hlt (i, j)) as [Hi Hj]; [left; left|]. simpl in Hi, Hj.
  assert (box_distinct (set_cell g (row + i) (col + j) num) row col
            ((i, j) :: done)) as Hbox1.
  { assert (∀ q, q ∈ done →
      cell (set_cell g (row + i) (col + j) num) (row + q.1) (col + q.2)
      = cell g (row + q.1) (col + q.2)) as Hother.
    { intros [qi qj] Hq. apply cell_set_ne. simpl. intros [= Hqi Hqj].
      apply (Hfresh (i, j)); [left|]. by replace i with qi by lia;
        replace j with qj by lia. }
    intros p [->|Hp]%elem_of_cons; simpl.
    - rewrite cell_set_eq by (done || lia). split; [done|].
      intros q [->|Hq]%elem_of_cons Hne; [done|]. rewrite Hother by done.
      destruct (Hlt q) as [? ?]; [by right|]. by apply Hsafe.
    - rewrite Hother by done. destruct (Hbox p Hp) as [Hdig Hdiff].
      split; [done|]. intros q [->|Hq]%elem_of_cons Hne; simpl.
      + rewrite cell_set_eq by (done || lia). intros Heq.
        destruct (Hlt p) as [? ?]; [by right|].
        by apply (Hsafe p.1 p.2).
      + rewrite Hother by done. by apply Hdiff. }
  destruct (IH ((i, j) :: done) (set_cell g (row + i) (col + j) num) rest
              g' ds' Hnd) as (Hs' & Hbox' & Hframe).
  - intros o Ho [->|Hd]%elem_of_cons; [done|].
    apply (Hfresh o); [by right|done].
  - intros o [Ho|[->|Ho]%elem_of_cons].
    + apply Hlt. left. by right.
    + done.
    + apply Hlt. by right.
  - by apply shape9_set.
  - done.
  - done.
  - split_and!; [done| |].
    + assert (∀ x, x ∈ ((i, j) :: offs) ++ done → x ∈ offs ++ (i, j) :: done)
        as Hmove.
      { intros x. rewrite !elem_of_app, !elem_of_cons. tauto. }
      intros p Hp. destruct (Hbox' p (Hmove p Hp)) as [Hdig Hdiff].
      split; [done|]. intros q Hq. by apply Hdiff, Hmove.
    + intros r c Hout. rewrite Hframe.
      * apply cell_set_ne. intros [= <- <-]. apply (Hout (i, j)); [left|done].
      * intros o Ho. apply Hout. by right.
Qed.

Lemma box_offsets_NoDup : NoDup box_offsets.
Proof. apply (bool_decide_unpack _). by vm_compute. Qed.

(** What [fillBox] leaves: nine different digits in the box, the rest of the
    board as before. *)
Lemma fillBox_box g row col ds g' ds' :
  row ≤ 6 → col ≤ 6 → shape9 g → fillBox g row col ds = Some (g', ds') →
  shape9 g'
  ∧ (∀ i j, i < 3 → j < 3 → (1 ≤ cell g' (row + i) (col + j) ≤ 9)%Z)
  ∧ (∀ i j i' j', i < 3 → j < 3 → i' < 3 → j' < 3 → (i', j') ≠ (i, j) →
       cell g' (row + i') (col + j') ≠ cell g' (row + i) (col + j))
  ∧ (∀ r c, ¬ (row ≤ r < row + 3 ∧ col ≤ c < col + 3) →
       cell g' r c = cell g r c).
Proof.
  intros Hrow Hcol Hs Hrun.
  destruct (fillBox_from_distinct row col Hrow Hcol box_offsets [] g ds g' ds')
    as (Hs' & Hbox & Hframe); try done.
  - apply box_offsets_NoDup.
  - intros o _ Ho. by apply elem_of_nil in Ho.
  - intros [i j] [Ho|Ho]; [by apply box_offsets_spec|by apply elem_of_nil in Ho].
  - intros p Hp. by apply elem_of_nil in Hp.
  - rewrite app_nil_r in Hbox. split_and!; [done| | |].
    + intros i j Hi Hj. apply (Hbox (i, j)). by apply box_offsets_spec.
    + intros i j i' j' Hi Hj Hi' Hj' Hne.
      destruct (Hbox (i, j)) as [_ Hdiff]; [by apply box_offsets_spec|].
      apply (Hdiff (i', j')); [by apply box_offsets_spec|done].
    + intros r c Hout. apply Hframe. intros [i j] Ho%box_offsets_spec [= -> ->].
      simpl in *. lia.
Qed.

(** Filling a diagonal box of a board that holds digits in diagonal boxes
    only keeps it free of repetitions. *)
Lemma fillBox_diagonal b g ds g' ds' :
  b < 3 → board_ok g → diag_only g →
  fillBox g (3 * b) (3 * b) ds = Some (g', ds') →
  board_ok g' ∧ diag_only g'.
Proof.
  intros Hb (Hs & Hcons & Hdig) Hdiag Hrun.
  destruct (fillBox_box g (3 * b) (3 * b) ds g' ds')
    as (Hs' & Hdigits & Hdiff & Hframe); [lia..|done|done|].
  assert (∀ r c, r < 9 → c < 9 → r / 3 = b → c / 3 = b →
    ∃ i j, i < 3 ∧ j < 3 ∧ r = 3 * b + i ∧ c = 3 * b + j) as Hin.
  { intros r c Hr Hc Hrb Hcb. exists (r - 3 * b), (c - 3 * b).
    pose proof (Nat.div_mod_eq r 3). pose proof (Nat.div_mod_eq c 3).
    pose proof (Nat.mod_upper_bound r 3). pose proof (Nat.mod_upper_bound c 3).
    lia. }
  assert (∀ r c, r < 9 → c < 9 → ¬ (r / 3 = b ∧ c / 3 = b) →
    cell g' r c = cell g r c) as Hout.
  { intros r c Hr Hc Hnot. apply Hframe. intros [[Hr1 Hr2] [Hc1 Hc2]].
    apply Hnot. split.
    - symmetry. apply (Nat.div_unique r 3 b (r - 3 * b)); lia.
    - symmetry. apply (Nat.div_unique c 3 b (c - 3 * b)); lia. }
  assert (∀ r c, r < 9 → c < 9 → cell g' r c ≠ 0%Z → r / 3 = c / 3) as Hdiag'.
  { intros r c Hr Hc Hnz.
    destruct (decide (r / 3 = b ∧ c / 3 = b)) as [[-> ->]|Hnot]; [done|].
    rewrite Hout in Hnz by done. by apply Hdiag. }
  split; [|done]. split_and!; [done| |].
  - intros r c r' c' Hr Hc Hr' Hc' Hunit Hne Hnz.
    pose proof (Hdiag' r c Hr Hc Hnz) as Hrc.
    destruct (decide (cell g' r' c' = 0%Z)) as [Hz|Hnz']; [congruence|].
    pose proof (Hdiag' r' c' Hr' Hc' Hnz') as Hrc'.
    assert (r' / 3 = r / 3 ∧ c' / 3 = c / 3) as [Hbr Hbc].
    { destruct Hunit as [->|[->|[? ?]]]; [split; congruence..|done]. }
    destruct (decide (r / 3 = b)) as [Hrb|Hrb].
    + destruct (Hin r c) as (i & j & Hi & Hj & -> & ->); [done..|congruence|].
      destruct (Hin r' c') as (i' & j' & Hi' & Hj' & -> & ->);
        [done..|congruence|congruence|].
      apply Hdiff; [done..|]. intros [= -> ->]. done.
    + rewrite !Hout by (done || (intros [? ?]; congruence)).
      apply Hcons; try done. by rewrite <- (Hout r c)
        by (done || (intros [? ?]; congruence)).
  - intros r c Hr Hc.
    destruct (decide (r / 3 = b ∧ c / 3 = b)) as [[Hrb Hcb]|Hnot].
    + destruct (Hin r c) as (i & j & Hi & Hj & -> & ->); [done..|].
      specialize (Hdigits i j Hi Hj). lia.
    + rewrite Hout by done. by apply Hdig.
Qed.

Lemma empty_grid_ok : board_ok empty_grid ∧ diag_only empty_grid.
Proof.
  split; [split_and!|].
  - apply shape9_empty.
  - intros r c r' c' _ _ _ _ _ _ Hnz. by rewrite cell_empty_grid in Hnz.
  - intros r c _ _. rewrite cell_empty_grid. lia.
  - intros r c _ _ Hnz. by rewrite cell_empty_grid in Hnz.
Qed.

Lemma fill_diagonal_ok ds g ds' :
  fill_diagonal empty_grid ds = Some (g, ds') → board_ok g ∧ diag_only g.
Proof.
  unfold fill_diagonal. intros Hrun.
  destruct (fillBox empty_grid 0 0 ds) as [[g0 ds0]|] eqn:E0; [|done].
  cbn [mbind option_bind] in Hrun.
  destruct (fillBox g0 3 3 ds0) as [[g3 ds3]|] eqn:E3; [|done].
  cbn [mbind option_bind] in Hrun.
  destruct empty_grid_ok as [Hok Hd].
  apply (fillBox_diagonal 0) in E0 as [Hok0 Hd0]; [|lia|done..].
  apply (fillBox_diagonal 1) in E3 as [Hok3 Hd3]; [|lia|done..].
  by apply (fillBox_diagonal 2) in Hrun; [|lia|done..].
Qed.

Lemma sample_diagonal_ok : board_ok sample_diagonal.
Proof. by destruct (fill_diagonal_ok _ _ _ sample_diagonal_eq). Qed.

Lemma sample_sorts_digits (k : nat) :
  Forall (λ d, (1 ≤ d ≤ 9)%Z) (sorts sample_random k).
Proof. simpl. repeat constructor; lia. Qed.

End SolutionFacts.

Module GeneratorLaws.
Import Generator GeneratorFacts CheckerFacts SearchFacts SolutionFacts Samples
  Specs BoardNotions.

(** X1. A call of [fillGrid] on a 9x9 board that returns [true] leaves a
    board without empty cell; one that returns [false] leaves the board
    exactly as it was given (every trial digit has been taken back). *)
Theorem fillGrid_outcome fuel srt g k b g' k' :
  shape9 g → fillGrid fuel srt g k = Some (b, g', k') →
  shape9 g'
  ∧ if b then ∀ r c, r < 9 → c < 9 → cell g' r c ≠ 0%Z else g' = g.
Proof.
  intros Hs Hrun. apply fillGrid_post in Hrun as [Hs' Hpost].
  split; [by apply Hs'|]. destruct b; [|done]. by apply first_empty_None.
Qed.

Lemma fillGrid_outcome_witness :
  ∃ b g' k', fillGrid fill_fuel (sorts sample_random) sample_diagonal 0
             = Some (b, g', k')
    ∧ shape9 g'
    ∧ if b then ∀ r c, r < 9 → c < 9 → cell g' r c ≠ 0%Z
      else g' = sample_diagonal.
Proof.
  destruct (fillGrid fill_fuel (sorts sample_random) sample_diagonal 0)
    as [[[b g'] k']|] eqn:E; [|by vm_compute in E].
  exists b, g', k'. split; [done|].
  apply (fillGrid_outcome fill_fuel (sorts sample_random) sample_diagonal 0
           b g' k'); [|done].
  split; [by vm_compute|]. vm_compute. by repeat constructor.
Defined.

(** X2. The recursion of [fillGrid] is never deeper than 82 calls: on every
    9x9 board and with every behaviour of the shuffles the call returns. *)
Theorem fillGrid_returns srt g k :
  shape9 g → is_Some (fillGrid fill_fuel srt g k).
Proof.
  intros Hs. apply fillGrid_total; [done|]. unfold fill_fuel. lia.
Qed.

Lemma fillGrid_returns_witness :
  is_Some (fillGrid fill_fuel (sorts sample_random) empty_grid 0).
Proof. apply fillGrid_returns, shape9_empty. Defined.

(** X3. The search is complete: when the filled cells of the board agree
    with some completed board and every shuffle holds the digits 1..9,
    [fillGrid] returns [true]. *)
Theorem fillGrid_finds_solution srt sol g k :
  solved sol → (∀ k d, (1 ≤ d ≤ 9)%Z → d ∈ srt k) →
  shape9 g → extends g sol →
  ∃ g' k', fillGrid fill_fuel srt g k = Some (true, g', k').
Proof.
  intros Hsol Hsrt Hs Hext. apply (fillGrid_complete srt sol); try done.
  unfold fill_fuel. lia.
Qed.

Lemma fillGrid_finds_solution_witness :
  ∃ g' k', fillGrid fill_fuel (λ _, [9; 8; 7; 6; 5; 4; 3; 2; 1]%Z)
             sample_diagonal 0 = Some (true, g', k').
Proof.
  apply (fillGrid_finds_solution _ (Session.solution sample_start)).
  - apply sample_solution_solved.
  - intros _ d Hd. simpl.
    assert (d = 1 ∨ d = 2 ∨ d = 3 ∨ d = 4 ∨ d = 5 ∨ d = 6 ∨ d = 7 ∨ d = 8
            ∨ d = 9)%Z as Hcases by lia.
    rewrite !elem_of_cons. tauto.
  - apply sample_diagonal_ok.
  - apply extendsb_spec. by vm_compute.
Defined.

(** X4. The search is sound: started on a 9x9 board of digits without
    repetition in any row, column or box, with shuffles of digits 1..9, a
    [fillGrid] that returns [true] leaves a completed board (digits 1..9,
    no digit twice in a row, column or box) that keeps every digit the
    board had. *)
Theorem fillGrid_solution_valid fuel srt g k g' k' :
  (∀ k, Forall (λ d, (1 ≤ d ≤ 9)%Z) (srt k)) → board_ok g →
  fillGrid fuel srt g k = Some (true, g', k') →
  solved g' ∧ keeps g g'.
Proof. intros Hsrt Hok Hrun. by eapply fillGrid_sound_aux. Qed.

Lemma fillGrid_solution_valid_witness :
  ∃ g' k', fillGrid fill_fuel (sorts sample_random) sample_diagonal 0
           = Some (true, g', k')
    ∧ solved g' ∧ keeps sample_diagonal g'.
Proof.
  destruct (fillGrid fill_fuel (sorts sample_random) sample_diagonal 0)
    as [[[b g'] k']|] eqn:E; [|by vm_compute in E].
  assert (b = true) as -> by (vm_compute in E; congruence).
  exists g', k'. split; [done|].
  apply (fillGrid_solution_valid fill_fuel (sorts sample_random)
           sample_diagonal 0 g' k');
    [apply sample_sorts_digits|apply sample_diagonal_ok|done].
Defined.

(** X5. [fillBox(row, col)] on a 9x9 board puts nine different digits 1..9
    into the 3x3 box at [(row, col)] and changes no cell outside of it. *)
Theorem fillBox_fills g row col ds g' ds' :
  row ≤ 6 → col ≤ 6 → shape9 g → fillBox g row col ds = Some (g', ds') →
  (∀ i j, i < 3 → j < 3 → (1 ≤ cell g' (row + i) (col + j) ≤ 9)%Z)
  ∧ (∀ i j i' j', i < 3 → j < 3 → i' < 3 → j' < 3 → (i', j') ≠ (i, j) →
       cell g' (row + i') (col + j') ≠ cell g' (row + i) (col + j))
  ∧ (∀ r c, ¬ (row ≤ r < row + 3 ∧ col ≤ c < col + 3) →
       cell g' r c = cell g r c).
Proof.
  intros Hrow Hcol Hs Hrun.
  by destruct (fillBox_box g row col ds g' ds') as (_ & ? & ? & ?).
Qed.

Lemma fillBox_fills_witness :
  ∃ g' ds', fillBox empty_grid 3 3 [4; 4; 13; 0; 1; 2; 3; 5; 6; 6; 7; 8; 2]
            = Some (g', ds')
    ∧ (∀ i j, i < 3 → j < 3 → (1 ≤ cell g' (3 + i) (3 + j) ≤ 9)%Z)
    ∧ (∀ i j i' j', i < 3 → j < 3 → i' < 3 → j' < 3 → (i', j') ≠ (i, j) →
         cell g' (3 + i') (3 + j') ≠ cell g' (3 + i) (3 + j))
    ∧ (∀ r c, ¬ (3 ≤ r < 3 + 3 ∧ 3 ≤ c < 3 + 3) →
         cell g' r c = cell empty_grid r c).
Proof.
  destruct (fillBox empty_grid 3 3 [4; 4; 13; 0; 1; 2; 3; 5; 6; 6; 7; 8; 2])
    as [[g' ds']|] eqn:E; [|by vm_compute in E].
  exists g', ds'. split; [done|].
  apply (fillBox_fills empty_grid 3 3
           [4; 4; 13; 0; 1; 2; 3; 5; 6; 6; 7; 8; 2] g' ds'); [lia|lia| |done].
  apply shape9_empty.
Defined.

(** X6. For each of the four tiers, with shuffles of the digits 1..9, the
    [solution] that [generate] returns is a completed board: every cell
    holds a digit 1..9 and no digit stands twice in a row, a column or a
    3x3 box. *)
Theorem generate_solution_valid t rnd p :
  (∀ k, Forall (λ d, (1 ≤ d ≤ 9)%Z) (sorts rnd k)) →
  generate (tier_name t) rnd = Some p → solved (p_solution p).
Proof.
  intros Hsrt Hgen. unfold generate in Hgen. rewrite attempts_tier in Hgen.
  destruct (fill_diagonal empty_grid (draws rnd)) as [[g1 ds1]|] eqn:Ed; [|done].
  pose proof (fill_diagonal_spec _ _ _ Ed) as [Hs1 Hc1].
  apply fill_diagonal_ok in Ed as [Hok _]. cbn [mbind option_bind] in Hgen.
  destruct (fillGrid fill_fuel (sorts rnd) g1 0) as [[[b g2] k]|] eqn:Ef; [|done].
  cbn [mbind option_bind] in Hgen.
  destruct (remove_cells (tier_removed t) g2 ds1) as [g3|] eqn:Er; [|done].
  injection Hgen as <-. cbn [p_solution]. destruct b.
  - by destruct (fillGrid_sound_aux _ Hsrt _ _ _ _ _ Ef Hok).
  - apply fillGrid_post in Ef as [_ Hsame]. cbn beta iota in Hsame.
    subst g2. apply remove_cells_spec in Er as (_ & Hcnt & _); [|done].
    destruct t; simpl in Hcnt; lia.
Qed.

Lemma generate_solution_valid_witness :
  ∃ p, generate "hard" sample_random = Some p ∧ solved (p_solution p).
Proof.
  destruct (generate "hard" sample_random) as [p|] eqn:E; [|by vm_compute in E].
  exists p. split; [done|].
  apply (generate_solution_valid Hard sample_random p);
    [apply sample_sorts_digits|done].
Defined.

(** X7. The removal loop of [generate], when it finishes, has blanked
    exactly [n] filled cells of the 9x9 board and changed nothing else; it
    cannot finish when the board has fewer than [n] filled cells. *)
Theorem removal_loop_exact n g ds :
  shape9 g →
  (∀ g', remove_cells n g ds = Some g' →
     count_nonzero g' + n = count_nonzero g
     ∧ ∀ r c, cell g' r c = cell g r c ∨ cell g' r c = 0%Z)
  ∧ (count_nonzero g < n → remove_cells n g ds = None).
Proof.
  intros Hs. split.
  - intros g' Hrun. apply remove_cells_spec in Hrun as (_ & Hcnt & Hcells);
      [|done]. split; [lia|done].
  - intros Hlt. destruct (remove_cells n g ds) as [g'|] eqn:Hrun; [|done].
    apply remove_cells_spec in Hrun as (_ & Hcnt & _); [lia|done].
Qed.

Lemma removal_loop_exact_witness :
  (∀ g', remove_cells 2 sample_diagonal [0; 0; 0; 0; 0; 5; 4; 4] = Some g' →
     count_nonzero g' + 2 = count_nonzero sample_diagonal
     ∧ ∀ r c, cell g' r c = cell sample_diagonal r c ∨ cell g' r c = 0%Z)
  ∧ (count_nonzero sample_diagonal < 2 →
     remove_cells 2 sample_diagonal [0; 0; 0; 0; 0; 5; 4; 4] = None).
Proof. apply removal_loop_exact, sample_diagonal_ok. Defined.

(** X8. A difficulty argument that names no property of [DIFFICULTY], own or
    inherited, is served by the fallback: [generate] removes 30 cells, its
    [initial] has 51 filled cells, each equal to [solution]. *)
Theorem unknown_level_removes_thirty difficulty rnd p :
  DIFFICULTY difficulty = None → generate difficulty rnd = Some p →
  count_nonzero (p_initial p) = 51
  ∧ ∀ r c, cell (p_initial p) r c ≠ 0%Z →
           cell (p_initial p) r c = cell (p_solution p) r c.
Proof.
  intros Hnone Hgen.
  destruct (generate_removes difficulty 30 rnd p) as (_ & -> & Hcells);
    [|lia|done|].
  - unfold attempts. by rewrite Hnone.
  - split; [done|]. intros r c Hnz. by destruct (Hcells r c).
Qed.

Lemma unknown_level_removes_thirty_witness :
  ∃ p, generate "extreme" sample_random = Some p
       ∧ count_nonzero (p_initial p) = 51
       ∧ ∀ r c, cell (p_initial p) r c ≠ 0%Z →
                cell (p_initial p) r c = cell (p_solution p) r c.
Proof.
  destruct (generate "extreme" sample_random) as [p|] eqn:E;
    [|by vm_compute in E].
  exists p. split; [done|].
  by apply (unknown_level_removes_thirty "extreme" sample_random p).
Defined.

End GeneratorLaws.

(** * The page: redraw, saved game and high scores *)

Module ScoreListFacts.
Import Session Page PageNotions.


Lemma insert_score_elem e l x : x ∈ insert_score e l ↔ x = e ∨ x ∈ l.
Proof.
  induction l as [|y l IH]; simpl.
  - rewrite list_elem_of_singleton, elem_of_nil. tauto.
  - case_match; rewrite !elem_of_cons; [tauto|]. rewrite IH. tauto.
Qed.


(** An entry not above the ones of the list comes last. *)
Lemma insert_score_last e l :
  Forall (λ x, by_score x e) l → insert_score e l = l ++ [e].
Proof.
  induction 1 as [|x l Hx _ IH]; simpl; [done|].
  unfold by_score in Hx. case_match eqn:Hlt; [apply Z.ltb_lt in Hlt; lia|].
  by rewrite IH.
Qed.



Lemma foldl_insert_elem l acc x :
  x ∈ foldl (λ acc e, insert_score e acc) acc l ↔ x ∈ acc ∨ x ∈ l.
Proof.
  revert acc. induction l as [|y l IH]; intros acc; simpl.
  - rewrite elem_of_nil. tauto.
  - rewrite IH, insert_score_elem, elem_of_cons. tauto.
Qed.



Lemma sort_scores_elem l x : x ∈ sort_scores l ↔ x ∈ l.
Proof. unfold sort_scores. rewrite foldl_insert_elem, elem_of_nil. tauto. Qed.

Lemma sort_scores_snoc l e : sort_scores (l ++ [e]) = insert_score e (sort_scores l).
Proof. unfold sort_scores. by rewrite foldl_app. Qed.

Lemma foldl_insert_id l acc :
  StronglySorted by_score (acc ++ l) →
  foldl (λ acc e, insert_score e acc) acc l = acc ++ l.
Proof.
  revert acc. induction l as [|x l IH]; intros acc Hs; simpl.
  - by rewrite app_nil_r.
  - rewrite insert_score_last.
    + rewrite IH; rewrite <- app_assoc; done.
    + apply Forall_forall. intros y Hy.
      eapply (StronglySorted_app_1_elem_of by_score acc (x :: l)); try done.
      apply elem_of_cons. by left.
Qed.

(** Sorting a sorted list changes nothing. *)
Lemma sort_scores_id l : StronglySorted by_score l → sort_scores l = l.
Proof. intros Hs. unfold sort_scores. by rewrite foldl_insert_id. Qed.



End ScoreListFacts.

Module PageFacts.
Import Generator Session Page PageNotions ScoreListFacts.

#[local] Arguments Page.checkCompletion : simpl never.
#[local] Arguments Page.saveHighScore : simpl never.































End PageFacts.

Module DealtFacts.
Import Generator Session Page PageNotions PageFacts.

#[local] Arguments Page.checkCompletion : simpl never.


















End DealtFacts.

Module PlayFacts.
Import Generator Session Page PageNotions PageFacts.









End PlayFacts.

Module PageLaws.
Import Generator GeneratorFacts Session Page PageNotions ScoreListFacts
  PageFacts DealtFacts PlayFacts.

#[local] Arguments Page.checkCompletion : simpl never.
#[local] Arguments Page.saveHighScore : simpl never.




































(** X21. [saveHighScore] with a score not above any of five stored entries
    (sorted, the best first) leaves the list as it is: the new entry is
    sorted behind the entries of the same score and cut off. *)
Theorem low_score_leaves_table today sc p l :
  sudoku_highscores p = Some l → StronglySorted by_score l → length l = 5 →
  Forall (λ e, (sc ≤ hs_score e)%Z) l →
  sudoku_highscores (saveHighScore today sc p) = Some l.
Proof.
  intros Hl Hsorted Hlen Hlow. unfold saveHighScore.
  cbn [sudoku_highscores]. rewrite Hl. cbn [default]. f_equal.
  rewrite sort_scores_snoc, sort_scores_id by done.
  rewrite insert_score_last by done.
  rewrite <- Hlen. apply take_app_length.
Qed.

Lemma low_score_leaves_table_witness :
  let l := [mkHighScore 600 "1/1/2026" "easy"; mkHighScore 590 "1/1/2026" "easy";
            mkHighScore 300 "1/2/2026" "hard"; mkHighScore 300 "1/3/2026" "easy";
            mkHighScore 120 "1/4/2026" "medium"] in
  sudoku_highscores
    (saveHighScore "1/5/2026" 120 (mkPage state0 None (Some l))) = Some l.
Proof.
  apply low_score_leaves_table; [done| |done|].
  - repeat constructor; unfold by_score; simpl; lia.
  - repeat constructor; simpl; lia.
Defined.




End PageLaws.

(** * The clock display *)

Module DisplayLaws.
Import Display.

Lemma two_digits n :
  n < 100 →
  padStart 2 (pretty n) = String (digit (n / 10)) (String (digit (n mod 10)) "").
Proof.
  intros Hn.
  assert (Forall (λ n, padStart 2 (pretty n)
            = String (digit (n / 10)) (String (digit (n mod 10)) ""))
            (seq 0 100)) as Hall
    by (apply (bool_decide_unpack _); by vm_compute).
  rewrite Forall_forall in Hall. apply Hall, elem_of_seq. lia.
Qed.

(** X23. Below 100 minutes [formatTime] shows five characters: the two
    decimal digits of the minutes, a colon, and the two decimal digits of
    the seconds. *)
Theorem formatTime_mm_ss seconds :
  seconds < 100 * 60 →
  formatTime seconds
  = String (digit (seconds / 60 / 10))
      (String (digit (seconds / 60 mod 10))
         (String ":"%char
            (String (digit (seconds mod 60 / 10))
               (String (digit (seconds mod 60 mod 10)) "")))).
Proof.
  intros Hlt. unfold formatTime. cbn zeta.
  rewrite !two_digits; [done| |].
  - pose proof (Nat.mod_upper_bound seconds 60 ltac:(lia)). lia.
  - apply Nat.Div0.div_lt_upper_bound. lia.
Qed.

Lemma formatTime_mm_ss_witness : formatTime 754 = "12:34".
Proof. by rewrite (formatTime_mm_ss 754) by lia. Defined.

End DisplayLaws.
